(** * html_to_json_parser: the quiz extractor of [extract_quiz_data]

    A shallow embedding of [src/html_to_json_parser.py].  The parsed
    document (the [BeautifulSoup] object) is a rose tree of tags and
    strings; an element handle is the position of the element in that tree
    together with the node found there, so that identity, parents and
    siblings are available the way the code uses them.  A character is
    a code point below 256, and on these the character classes below are
    those of Python's [\s], [\d], [str.strip] and [str.lower]. *)

From Stdlib Require Import Bool Arith Lia List Ascii String Sorted.
Import ListNotations.
Open Scope string_scope.
Open Scope list_scope.
Open Scope bool_scope.

(** ** Text: character classes, [strip], the two ordinal patterns *)

Module Text.

(** [str.isspace] and [\s]: TAB, LF, VT, FF, CR, FS, GS, RS, US, SPACE,
    NEL and the no-break space. *)
Definition isspace (c : ascii) : bool :=
  let n := nat_of_ascii c in
  ((9 <=? n)%nat && (n <=? 13)%nat) || ((28 <=? n)%nat && (n <=? 32)%nat) ||
  (n =? 133)%nat || (n =? 160)%nat.

(** [\d] *)
Definition isdigit (c : ascii) : bool :=
  let n := nat_of_ascii c in (48 <=? n)%nat && (n <=? 57)%nat.

(** The lower case of a character: of A-Z, and of the capital letters
    from 192 to 222, the multiplication sign 215 apart. *)
Definition lower_char (c : ascii) : ascii :=
  let n := nat_of_ascii c in
  if ((65 <=? n)%nat && (n <=? 90)%nat) ||
     ((192 <=? n)%nat && (n <=? 222)%nat && negb (n =? 215)%nat)
  then ascii_of_nat (n + 32) else c.

(** [s.lower()] *)
Fixpoint lower (s : string) : string :=
  match s with
  | EmptyString => EmptyString
  | String c r => String (lower_char c) (lower r)
  end.

Definition is_empty (s : string) : bool :=
  match s with EmptyString => true | String _ _ => false end.

(** [s.lstrip()] *)
Fixpoint lstrip (s : string) : string :=
  match s with
  | EmptyString => EmptyString
  | String c r => if isspace c then lstrip r else s
  end.

(** [s.rstrip()] *)
Fixpoint rstrip (s : string) : string :=
  match s with
  | EmptyString => EmptyString
  | String c r =>
      let r' := rstrip r in
      if isspace c && is_empty r' then EmptyString else String c r'
  end.

(** [s.strip()] *)
Definition strip (s : string) : string := rstrip (lstrip s).

(** [re.sub(r'\s+', ' ', s)]: every maximal run of whitespace becomes one
    space; [in_run] says that the previous character was whitespace. *)
Fixpoint collapse_ws (in_run : bool) (s : string) : string :=
  match s with
  | EmptyString => EmptyString
  | String c r =>
      if isspace c
      then (if in_run then collapse_ws true r else String " "%char (collapse_ws true r))
      else String c (collapse_ws false r)
  end.

Fixpoint all_space (s : string) : bool :=
  match s with
  | EmptyString => true
  | String c r => isspace c && all_space r
  end.

(** The part of [s] after its leading digits, with their number. *)
Fixpoint skip_digits (s : string) : nat * string :=
  match s with
  | EmptyString => (0, s)
  | String c r =>
      if isdigit c then let '(n, t) := skip_digits r in (S n, t) else (0, s)
  end.

(** What follows a match of [^\d+\.] at the start of [s], if there is one. *)
Definition after_ordinal (s : string) : option string :=
  match skip_digits s with
  | (S _, String "."%char t) => Some t
  | _ => None
  end.

(** [question_pattern.match(s)] with [question_pattern = ^\d+\.\s+]. *)
Definition question_pattern (s : string) : bool :=
  match after_ordinal s with
  | Some (String c _) => isspace c
  | _ => false
  end.

(** [re.match(r'^\d+\.\s*$', s)]: the greedy [\s*] takes a final newline
    too, so the pattern asks that only whitespace follows the dot. *)
Definition bare_ordinal (s : string) : bool :=
  match after_ordinal s with
  | Some t => all_space t
  | None => false
  end.

(** [needle in hay] for strings. *)
Fixpoint contains (needle hay : string) : bool :=
  prefix needle hay ||
  match hay with
  | EmptyString => false
  | String _ r => contains needle r
  end.

(** [sep.join(parts)] is [String.concat sep parts].  [s.split('\n')]: *)
Fixpoint split_lines (cur : string) (s : string) : list string :=
  match s with
  | EmptyString => [cur]
  | String c r =>
      if Ascii.eqb c "010"%char then cur :: split_lines EmptyString r
      else split_lines (cur ++ String c EmptyString)%string r
  end.

Section Unescape.

(** [html.unescape] replaces character references and copies every
    other character.  The table of named references ([html.entities])
    and the decoding of numeric ones are not part of the repository:
    [charref r] is given the text after an ampersand and answers with
    the replacement and the number of characters it stands for, or
    with [None] where the ampersand is kept. *)
Variable charref : string -> option (string * nat).

Fixpoint unescape_from (skip : nat) (s : string) : string :=
  match s with
  | EmptyString => EmptyString
  | String c r =>
      match skip with
      | S k => unescape_from k r
      | O =>
          if Ascii.eqb c "&"%char then
            match charref r with
            | Some (rep, n) => (rep ++ unescape_from n r)%string
            | None => String c (unescape_from 0 r)
            end
          else String c (unescape_from 0 r)
      end
  end.

Definition unescape (s : string) : string := unescape_from 0 s.

(** [clean_text(text)] *)
Definition clean_text (text : string) : string :=
  if is_empty text then ""
  else strip (collapse_ws false (unescape text)).

End Unescape.

(** The first character of [s] is a digit. *)
Definition starts_with_digit (s : string) : bool :=
  match s with String c _ => isdigit c | EmptyString => false end.

(** The first character of [s] after its leading whitespace is a digit. *)
Definition leading_digit (s : string) : bool := starts_with_digit (lstrip s).

(** A decoder for the examples: the references of the characters that
    [html.escape] escapes. *)
Definition charref_basic (r : string) : option (string * nat) :=
  if prefix "amp;" r then Some ("&", 4)
  else if prefix "lt;" r then Some ("<", 3)
  else if prefix "gt;" r then Some (">", 3)
  else if prefix "quot;" r then Some (String "034" "", 5)
  else None.

(** Every whitespace character of [s] is a space, and what follows it is
    not whitespace ([s] may end with one space). *)
Fixpoint collapsed (s : string) : bool :=
  match s with
  | EmptyString => true
  | String c r =>
      (if isspace c
       then Ascii.eqb c " "%char &&
            match r with String d _ => negb (isspace d) | EmptyString => true end
       else true) && collapsed r
  end.

(** Every whitespace character of [s] is a space between two characters
    that are not whitespace. *)
Fixpoint spaced (s : string) : bool :=
  match s with
  | EmptyString => true
  | String c r =>
      (if isspace c
       then Ascii.eqb c " "%char &&
            match r with String d _ => negb (isspace d) | EmptyString => false end
       else true) && spaced r
  end.

(** The first character of [s], if there is one, is not whitespace. *)
Definition head_not_space (s : string) : bool :=
  match s with String c _ => negb (isspace c) | EmptyString => true end.

(** A normalized text: no whitespace at its ends, single spaces inside. *)
Definition normalized (s : string) : bool :=
  match s with String c _ => negb (isspace c) | EmptyString => true end && spaced s.

(** ['&' not in s] *)
Fixpoint no_amp (s : string) : bool :=
  match s with
  | EmptyString => true
  | String c r => negb (Ascii.eqb c "&"%char) && no_amp r
  end.

Fixpoint all_digits (s : string) : bool :=
  match s with
  | EmptyString => true
  | String c r => isdigit c && all_digits r
  end.

(** [s] holds no line feed. *)
Fixpoint no_newline (s : string) : bool :=
  match s with
  | EmptyString => true
  | String c r => negb (Ascii.eqb c "010"%char) && no_newline r
  end.

(** The characters of [s] that are not whitespace. *)
Fixpoint letters (s : string) : string :=
  match s with
  | EmptyString => EmptyString
  | String c r => if isspace c then letters r else String c (letters r)
  end.

End Text.

(** ** The parsed document: tags, strings, positions *)

Module Soup.

(** An attribute value: a string, or a list of strings for the
    multi-valued attributes ([class]). *)
Inductive py_value : Type :=
| VStr (s : string)
| VList (l : list string).

Unset Elimination Schemes.

(** A [Tag] with its name, attribute dictionary and contents, a
    [NavigableString], or a string that [get_text] leaves out (a
    [Comment]). *)
Inductive node : Type :=
| Tag (name : string) (attrs : list (string * py_value)) (contents : list node)
| NavigableString (s : string)
| Comment (s : string).

Set Elimination Schemes.

Section NodeInd.
Variable P : node -> Prop.
Hypothesis P_tag : forall name attrs contents, Forall P contents -> P (Tag name attrs contents).
Hypothesis P_string : forall s, P (NavigableString s).
Hypothesis P_comment : forall s, P (Comment s).

Fixpoint node_ind (n : node) : P n :=
  match n with
  | Tag name attrs contents =>
      P_tag name attrs contents
        ((fix go (l : list node) : Forall P l :=
            match l with
            | [] => Forall_nil P
            | c :: r => Forall_cons c (node_ind c) (go r)
            end) contents)
  | NavigableString s => P_string s
  | Comment s => P_comment s
  end.
End NodeInd.

(** An element handle: where the node is (the child indices from the
    root) and the node itself.  Two handles are the same element when
    their positions agree. *)
Record element : Type := Element { pos : list nat; elt : node }.

Definition is_tag (n : node) : bool :=
  match n with Tag _ _ _ => true | _ => false end.

(** [tag.name in names]; a string has no name. *)
Definition has_name (names : list string) (n : node) : bool :=
  match n with
  | Tag name _ _ => existsb (String.eqb name) names
  | _ => false
  end.

Definition attrs_of (n : node) : list (string * py_value) :=
  match n with Tag _ attrs _ => attrs | _ => [] end.

Definition contents_of (n : node) : list node :=
  match n with Tag _ _ contents => contents | _ => [] end.

(** [tag.get(key)] *)
Fixpoint get (attrs : list (string * py_value)) (key : string) : option py_value :=
  match attrs with
  | [] => None
  | (k, v) :: r => if String.eqb k key then Some v else get r key
  end.

(** Python truth of an attribute value. *)
Definition truthy (v : py_value) : bool :=
  match v with
  | VStr s => negb (Text.is_empty s)
  | VList l => match l with [] => false | _ => true end
  end.

(** [x in v]: a substring of a string, a member of a list. *)
Definition py_in (x : string) (v : py_value) : bool :=
  match v with
  | VStr s => Text.contains x s
  | VList l => existsb (String.eqb x) l
  end.

Definition py_value_eqb (a b : py_value) : bool :=
  match a, b with
  | VStr s, VStr t => String.eqb s t
  | VList l, VList m =>
      (List.length l =? List.length m)%nat && forallb (fun p => String.eqb (fst p) (snd p)) (combine l m)
  | _, _ => false
  end.

Definition opt_value_eqb (a b : option py_value) : bool :=
  match a, b with
  | Some x, Some y => py_value_eqb x y
  | None, None => true
  | _, _ => false
  end.

(** Equality of two attribute dictionaries: the same keys with equal values. *)
Definition attrs_eqb (a b : list (string * py_value)) : bool :=
  forallb (fun k => opt_value_eqb (get a k) (get b k)) (map fst a ++ map fst b).

(** [a == b] on page elements: bs4 compares tags by name, attributes and
    contents, and strings of either kind as strings. *)
Fixpoint node_eqb (a b : node) : bool :=
  match a, b with
  | Tag n1 at1 c1, Tag n2 at2 c2 =>
      String.eqb n1 n2 && attrs_eqb at1 at2 &&
      (fix go (l m : list node) : bool :=
         match l, m with
         | [], [] => true
         | x :: l', y :: m' => node_eqb x y && go l' m'
         | _, _ => false
         end) c1 c2
  | NavigableString s, NavigableString t
  | NavigableString s, Comment t
  | Comment s, NavigableString t
  | Comment s, Comment t => String.eqb s t
  | _, _ => false
  end.

(** [tag.get_text()]: the strings below the tag, comments left out. *)
Fixpoint get_text (n : node) : string :=
  match n with
  | Tag _ _ contents =>
      (fix go (l : list node) : string :=
         match l with
         | [] => ""
         | c :: r => (get_text c ++ go r)%string
         end) contents
  | NavigableString s => s
  | Comment _ => ""
  end.

(** Everything below the node at position [p], in document order. *)
Fixpoint descendants (p : list nat) (n : node) : list element :=
  match n with
  | Tag _ _ contents =>
      (fix go (i : nat) (l : list node) : list element :=
         match l with
         | [] => []
         | c :: r =>
             Element (p ++ [i]) c :: descendants (p ++ [i]) c ++ go (S i) r
         end) 0 contents
  | _ => []
  end.

(** [e.find_all(names)] *)
Definition find_all (names : list string) (e : element) : list element :=
  filter (fun d => has_name names (elt d)) (descendants (pos e) (elt e)).

(** [e.find(name)] *)
Definition find (names : list string) (e : element) : option element :=
  hd_error (find_all names e).

Fixpoint node_at (n : node) (p : list nat) : option node :=
  match p with
  | [] => Some n
  | i :: q =>
      match nth_error (contents_of n) i with
      | Some c => node_at c q
      | None => None
      end
  end.

(** The elements above position [p], nearest first; [here] is where [n] is. *)
Fixpoint ancestors (acc : list element) (here : list nat) (n : node) (p : list nat)
  : list element :=
  match p with
  | [] => acc
  | i :: q =>
      match nth_error (contents_of n) i with
      | Some c => ancestors (Element here n :: acc) (here ++ [i]) c q
      | None => acc
      end
  end.

(** [e.find_parent(name)] in the document [soup]. *)
Definition find_parent (soup : node) (name : string) (e : element) : option element :=
  List.find (fun a => has_name [name] (elt a)) (ancestors [] [] soup (pos e)).

(** The nodes [l] as the children [k], [k+1], ... of position [par]. *)
Fixpoint children_from (par : list nat) (k : nat) (l : list node) : list element :=
  match l with
  | [] => []
  | c :: r => Element (par ++ [k]) c :: children_from par (S k) r
  end.

(** [e.next_siblings]: the nodes after [e] under the same parent. *)
Definition next_siblings (soup : node) (e : element) : list element :=
  match rev (pos e) with
  | [] => []
  | i :: rq =>
      match node_at soup (rev rq) with
      | Some par => children_from (rev rq) (S i) (skipn (S i) (contents_of par))
      | None => []
      end
  end.

(** [e.next_sibling] *)
Definition next_sibling (soup : node) (e : element) : option element :=
  hd_error (next_siblings soup e).

(** [e.find_next_siblings()]: the tags among the next siblings.  Its head
    is [e.find_next_sibling()], and the call repeated on the result
    walks down this list. *)
Definition find_next_siblings (soup : node) (e : element) : list element :=
  filter (fun s => is_tag (elt s)) (next_siblings soup e).

(** The document itself as an element. *)
Definition root (soup : node) : element := Element [] soup.

(** [before p q]: position [p] comes before [q] in the document; a tag
    comes before everything inside it. *)
Fixpoint before (p q : list nat) : bool :=
  match p, q with
  | [], _ :: _ => true
  | i :: p', j :: q' => (i <? j)%nat || ((i =? j)%nat && before p' q')
  | _, [] => false
  end.

Definition precedes (a b : element) : Prop := before (pos a) (pos b) = true.

(** A list of elements is in document order. *)
Definition document_order (l : list element) : Prop := StronglySorted precedes l.

(** The children [l], numbered from [i], with all that is below them. *)
Fixpoint descendants_list (p : list nat) (i : nat) (l : list node) : list element :=
  match l with
  | [] => []
  | c :: r =>
      Element (p ++ [i]) c :: descendants (p ++ [i]) c ++ descendants_list p (S i) r
  end.

(** Where the elements below a node are. *)
Definition below (p : list nat) (d : element) : Prop :=
  exists j r, pos d = p ++ j :: r.

Definition below_from (p : list nat) (i : nat) (d : element) : Prop :=
  exists j r, i <= j /\ pos d = p ++ j :: r.

Definition well_placed (n : node) : Prop :=
  forall p, document_order (descendants p n) /\ Forall (below p) (descendants p n).

(** Every element below [n] is the node found at its position. *)
Definition placed (n : node) : Prop :=
  forall p d, In d (descendants p n) ->
    exists q, pos d = p ++ q /\ node_at n q = Some (elt d).

(** What is below an element below [n] is below [n]. *)
Definition nested (n : node) : Prop :=
  forall p e t, In e (descendants p n) -> In t (descendants (pos e) (elt e)) ->
    In t (descendants p n).

(** No string below [n] is left out by [get_text]. *)
Fixpoint comment_free (n : node) : bool :=
  match n with
  | Tag _ _ contents =>
      (fix go (l : list node) : bool :=
         match l with
         | [] => true
         | c :: r => comment_free c && go r
         end) contents
  | NavigableString _ => true
  | Comment _ => false
  end.

(** [==] on two lists of contents. *)
Fixpoint nodes_eqb (l m : list node) : bool :=
  match l, m with
  | [], [] => true
  | x :: l', y :: m' => node_eqb x y && nodes_eqb l' m'
  | _, _ => false
  end.

(** The texts of the nodes [l], one after the other. *)
Fixpoint texts (l : list node) : string :=
  match l with
  | [] => ""
  | c :: r => (get_text c ++ texts r)%string
  end.

End Soup.

(** ** The extractor *)

Module Parser.
Import Text Soup.

(** A question record: the dictionary [question_data], one optional
    field per key the code assigns. *)
Record question_data : Type := QuestionData {
  q_question : option string;
  q_img : option py_value;
  q_pre : option string;
  q_type : option string;
  q_choices : option (list string);
  q_answer : option py_value
}.

(** [question_data = {}] *)
Definition empty_data : question_data := QuestionData None None None None None None.

Definition set_question (v : string) (d : question_data) : question_data :=
  QuestionData (Some v) (q_img d) (q_pre d) (q_type d) (q_choices d) (q_answer d).
Definition set_img (v : py_value) (d : question_data) : question_data :=
  QuestionData (q_question d) (Some v) (q_pre d) (q_type d) (q_choices d) (q_answer d).
Definition set_pre (v : string) (d : question_data) : question_data :=
  QuestionData (q_question d) (q_img d) (Some v) (q_type d) (q_choices d) (q_answer d).
Definition set_type (v : string) (d : question_data) : question_data :=
  QuestionData (q_question d) (q_img d) (q_pre d) (Some v) (q_choices d) (q_answer d).
Definition set_choices (v : list string) (d : question_data) : question_data :=
  QuestionData (q_question d) (q_img d) (q_pre d) (q_type d) (Some v) (q_answer d).
Definition set_answer (v : py_value) (d : question_data) : question_data :=
  QuestionData (q_question d) (q_img d) (q_pre d) (q_type d) (q_choices d) (Some v).

Definition emphasis : list string := ["strong"; "b"].

Definition special_keywords : list string :=
  ["match"; "question as presented"; "refer to the exhibit";
   "place the options in the following order"].

Definition missed_keywords : list string :=
  ["match"; "order"; "drag and drop"; "sequence"].

Definition see_image : string := "See image for the answer".
Definition unknown : string := "Unknown".

(** [any(keyword in text for keyword in keywords)] *)
Definition any_keyword (keywords : list string) (text : string) : bool :=
  existsb (fun keyword => contains keyword text) keywords.

(** [e.find('strong') or e.find('b')] *)
Definition strong_or_b (e : element) : option element :=
  match find ["strong"] e with
  | Some t => Some t
  | None => find ["b"] e
  end.

(** [img_tag = e.find('img')], then [img_tag and img_tag.get('src')]. *)
Definition img_src (e : element) : option py_value :=
  match find ["img"] e with
  | Some img_tag =>
      match get (attrs_of (elt img_tag)) "src" with
      | Some src => if truthy src then Some src else None
      | None => None
      end
  | None => None
  end.

(** The loop over the next elements, up to its [break]. *)
Fixpoint lookahead_img (next_elements : list element) : option py_value :=
  match next_elements with
  | [] => None
  | next_element :: rest =>
      if has_name ["p"] (elt next_element) then
        match img_src next_element with
        | Some src => Some src
        | None => lookahead_img rest
        end
      else lookahead_img rest
  end.

Definition declares_color (x : string) : bool :=
  negb (is_empty x) && contains "color:" x.

(** The filter [style=lambda x: x and 'color:' in x] on the value of the
    attribute: bs4 gives the function the string, and for a list each
    item and then the items joined by spaces. *)
Definition style_matches (style : option py_value) : bool :=
  match style with
  | Some (VStr x) => declares_color x
  | Some (VList l) => existsb declares_color l || declares_color (String.concat " " l)
  | None => false
  end.

(** [li.find(['span', 'strong'], style=lambda x: x and 'color:' in x)] *)
Definition colored_tag (li : element) : option element :=
  List.find (fun t => style_matches (get (attrs_of (elt t)) "style"))
    (find_all ["span"; "strong"] li).

(** [li.get('class') and 'correct_answer' in li.get('class')] *)
Definition has_correct_class (li : element) : bool :=
  match get (attrs_of (elt li)) "class" with
  | Some c => truthy c && py_in "correct_answer" c
  | None => false
  end.

(** The lines of a [pre] block: stripped, the empty ones dropped, joined. *)
Definition pre_text (raw_text : string) : string :=
  String.concat (String "010" "")
    (filter (fun line => negb (is_empty line)) (map strip (split_lines "" raw_text))).

(** What the forward scan has gathered. *)
Record scan_state : Type := ScanState {
  choices : list string;
  correct_answers : list string;
  question_parts : list string;
  pre_content : option string
}.

Definition falsy (s : option string) : bool :=
  match s with None => true | Some t => is_empty t end.

(** The text of a part when the parts are joined. *)
Definition combined_part (part : string) : string :=
  if bare_ordinal part then rstrip part else part.

Section Extractor.
Variable charref : string -> option (string * nat).
Variable soup : node.

(** The [for li in li_elements] loop. *)
Fixpoint collect_choices (li_elements : list element) (choices correct_answers : list string)
  : list string * list string :=
  match li_elements with
  | [] => (choices, correct_answers)
  | li :: rest =>
      let choice_text := clean_text charref (get_text (elt li)) in
      if is_empty choice_text then collect_choices rest choices correct_answers
      else
        match colored_tag li with
        | Some _ => collect_choices rest (choices ++ [choice_text]) (correct_answers ++ [choice_text])
        | None =>
            if has_correct_class li
            then collect_choices rest (choices ++ [choice_text]) (correct_answers ++ [choice_text])
            else collect_choices rest (choices ++ [choice_text]) correct_answers
        end
  end.

(** The [while current_element] loop, over the sibling tags that follow
    the anchor. *)
Fixpoint scan (siblings : list element) (st : scan_state) : scan_state :=
  match siblings with
  | [] => st
  | current_element :: rest =>
      if has_name ["ul"] (elt current_element) then
        let '(cs, ca) :=
          collect_choices (find_all ["li"] current_element) (choices st) (correct_answers st) in
        ScanState cs ca (question_parts st) (pre_content st)
      else if has_name ["p"] (elt current_element) then
        match strong_or_b current_element with
        | Some tag =>
            if question_pattern (strip (get_text (elt tag))) then st
            else scan rest
                   (ScanState (choices st) (correct_answers st)
                      (question_parts st ++ [clean_text charref (get_text (elt tag))])
                      (pre_content st))
        | None => scan rest st
        end
      else if has_name ["pre"] (elt current_element) then
        scan rest
          (if falsy (pre_content st)
           then ScanState (choices st) (correct_answers st) (question_parts st)
                  (Some (pre_text (get_text (elt current_element))))
           else st)
      else scan rest st
  end.

(** The inner [for i, sibling in enumerate(siblings)] loop of the
    malformed case: [true] when [tag] is appended. *)
Fixpoint malformed_number (tag : element) (siblings : list element) : bool :=
  match siblings with
  | [] => false
  | sibling :: rest =>
      if bare_ordinal (strip (get_text (elt sibling)))
         && negb (match rest with [] => true | _ => false end)
         && node_eqb (elt tag) (elt sibling)
      then true
      else malformed_number tag rest
  end.

(** Whether the loop over [soup.find_all(['strong', 'b'])] appends [tag]. *)
Definition is_standalone (tag : element) : bool :=
  question_pattern (strip (get_text (elt tag))) &&
  match find_parent soup "p" tag with
  | None => true
  | Some parent =>
      (1 <? List.length (find_all emphasis parent))%nat &&
      malformed_number tag (find_all emphasis parent)
  end.

Definition all_paragraphs : list element := find_all ["p"] (root soup).

Definition standalone_tags : list element :=
  filter is_standalone (find_all emphasis (root soup)).

Definition all_elements : list element := all_paragraphs ++ standalone_tags.

(** The question tag of an anchor. *)
Definition question_tag (element : element) : option Soup.element :=
  if has_name ["p"] (elt element) then strong_or_b element
  else if has_name emphasis (elt element) then Some element
  else None.

Definition is_question (tag : element) : bool :=
  let question_tag_text := strip (get_text (elt tag)) in
  question_pattern question_tag_text || bare_ordinal question_tag_text.

Definition question_text_of (tag : element) : string :=
  clean_text charref (get_text (elt tag)).

(** The image of the question at index [i]. *)
Definition find_img (i : nat) (element : element) : option py_value :=
  match (if has_name ["p"] (elt element) then img_src element else None) with
  | Some src => Some src
  | None => lookahead_img (firstn 2 (skipn (S i) all_elements))
  end.

Definition scan_from (element : element) (question_text : string) : scan_state :=
  scan (find_next_siblings soup element) (ScanState [] [] [question_text] None).

(** The question with its parts combined. *)
Definition assemble (element : element) (question_text : string) (st : scan_state)
    (d : question_data) : question_data :=
  if (1 <? List.length (question_parts st))%nat then
    set_question (String.concat " " (map combined_part (question_parts st))) d
  else if bare_ordinal question_text then
    if has_name emphasis (elt element) then
      match next_sibling soup element with
      | Some next_elem =>
          if has_name emphasis (elt next_elem) then
            set_question
              (rstrip question_text ++ " " ++ clean_text charref (get_text (elt next_elem)))%string d
          else d
      | None => d
      end
    else d
  else d.

Definition add_pre (st : scan_state) (d : question_data) : question_data :=
  match pre_content st with
  | Some p => if is_empty p then d else set_pre p d
  | None => d
  end.

(** The classification: the record to append, if one is. *)
Definition classify (question_text : string) (st : scan_state) (d : question_data)
  : option question_data :=
  let question_text_lower := lower question_text in
  if any_keyword special_keywords question_text_lower then
    Some (set_answer (VStr see_image) (set_choices [] (set_type "special" d)))
  else
    match choices st with
    | [] => None
    | _ :: _ =>
        let d := set_choices (choices st) d in
        Some
          (match correct_answers st with
           | [a] => set_answer (VStr a) d
           | _ :: _ :: _ => set_answer (VList (correct_answers st)) d
           | [] =>
               if any_keyword missed_keywords question_text_lower
               then set_answer (VStr see_image) (set_type "special" d)
               else set_answer (VStr unknown) d
           end)
    end.

(** One turn of the main loop: the record appended for
    [all_elements[i]], if one is. *)
Definition process (i : nat) : option question_data :=
  match nth_error all_elements i with
  | None => None
  | Some element =>
      match question_tag element with
      | None => None
      | Some tag =>
          if is_question tag then
            let question_text := question_text_of tag in
            let d := set_question question_text empty_data in
            let d := match find_img i element with
                     | Some src => set_img src d
                     | None => d
                     end in
            let st := scan_from element question_text in
            classify question_text st (add_pre st (assemble element question_text st d))
          else None
      end
  end.

(** [questions.append] when the turn yields a record. *)
Definition loop_body (questions : list question_data) (i : nat) : list question_data :=
  match process i with
  | Some d => questions ++ [d]
  | None => questions
  end.

(** The state of the main loop: the document it reads, the list it
    appends to and the index [i]. *)
Record machine : Type := Machine {
  document : node;
  questions : list question_data;
  counter : nat
}.

End Extractor.

Section MainLoop.
Variable charref : string -> option (string * nat).

(** One turn of [while i < len(all_elements)]: the body, then [i += 1]. *)
Definition step (m : machine) : machine :=
  Machine (document m)
    (loop_body charref (document m) (questions m) (counter m))
    (S (counter m)).

Fixpoint while_loop (fuel : nat) (m : machine) : machine :=
  match fuel with
  | O => m
  | S fuel' =>
      if (counter m <? List.length (all_elements (document m)))%nat
      then while_loop fuel' (step m)
      else m
  end.

(** The run on a parsed document: [questions = []], [i = 0], the loop. *)
Definition run (soup : node) : machine :=
  while_loop (List.length (all_elements soup)) (Machine soup [] 0).

(** [extract_quiz_data], on the parsed document. *)
Definition extract_quiz_data (soup : node) : list question_data :=
  questions (run soup).

End MainLoop.

(** [i] is the index of the anchor [element], whose question tag [tag]
    passes the check of the ordinal. *)
Definition anchor (soup : node) (i : nat) (element tag : element) : Prop :=
  nth_error (all_elements soup) i = Some element /\
  question_tag element = Some tag /\
  is_question tag = true.

(** The list the forward scan stops at: the first [ul] among the
    sibling tags, unless the start of the next question comes first. *)
Fixpoint matched_list (siblings : list element) : option element :=
  match siblings with
  | [] => None
  | current_element :: rest =>
      if has_name ["ul"] (elt current_element) then Some current_element
      else if has_name ["p"] (elt current_element) then
        match strong_or_b current_element with
        | Some tag =>
            if question_pattern (strip (get_text (elt tag))) then None
            else matched_list rest
        | None => matched_list rest
        end
      else matched_list rest
  end.

(** A tag below [li] with one of the [names] and a style that holds [color:]. *)
Definition has_colored (names : list string) (li : element) : bool :=
  existsb
    (fun t => has_name names (elt t) && style_matches (get (attrs_of (elt t)) "style"))
    (descendants (pos li) (elt li)).

(** The marker of a correct answer as the code looks for it. *)
Definition marked (li : element) : bool :=
  has_colored ["span"; "strong"] li || has_correct_class li.

(** The marker with both spellings of the emphasis tag. *)
Definition marked_either_spelling (li : element) : bool :=
  has_colored ["span"; "strong"; "b"] li || has_correct_class li.

(** The text of a list item as a choice. *)
Definition choice_text_of (charref : string -> option (string * nat)) (li : element) : string :=
  clean_text charref (get_text (elt li)).

Definition has_choice_text (charref : string -> option (string * nat)) (li : element) : bool :=
  negb (is_empty (choice_text_of charref li)).

(** The record of a turn, as a list. *)
Definition turn (charref : string -> option (string * nat)) (soup : node) (i : nat)
  : list question_data :=
  match process charref soup i with
  | Some d => [d]
  | None => []
  end.

(** The record of an anchor before it is classified: the question, the
    image and the [pre] block are in. *)
Definition draft (charref : string -> option (string * nat)) (soup : node) (i : nat)
    (element tag : element) : question_data :=
  let question_text := question_text_of charref tag in
  let st := scan_from charref soup element question_text in
  add_pre st
    (assemble charref soup element question_text st
       (match find_img soup i element with
        | Some src => set_img src (set_question question_text empty_data)
        | None => set_question question_text empty_data
        end)).

(** The [pre] block a scan leaves for the record. *)
Definition pre_of (st : scan_state) : option string :=
  match pre_content st with
  | Some p => if is_empty p then None else Some p
  | None => None
  end.

(** The sibling tags at which the forward scan stops: a list, or a
    paragraph whose emphasis tag starts the next question. *)
Definition ends_scan (current_element : element) : bool :=
  has_name ["ul"] (elt current_element) ||
  (has_name ["p"] (elt current_element) &&
   match strong_or_b current_element with
   | Some tag => question_pattern (strip (get_text (elt tag)))
   | None => false
   end).

End Parser.

(** ** Documents for the examples *)

Module Documents.
Import Soup.

Definition text_tag (name text : string) : node := Tag name [] [NavigableString text].

Definition item (text : string) : node := text_tag "li" text.

Definition soup_of (contents : list node) : node := Tag "[document]" [] contents.

(** [<p><strong>1. What color is the sky?</strong></p>] and a list whose
    first item has the text in a coloured span. *)
Definition doc_sky : node :=
  soup_of
    [Tag "p" [] [text_tag "strong" "1. What color is the sky?"];
     Tag "ul" []
       [Tag "li" [] [Tag "span" [("style", VStr "color: #ff0000")] [NavigableString "Blue"]];
        item "Green"; item " Red "]].

(** A matching question followed by a list. *)
Definition doc_match : node :=
  soup_of
    [Tag "p" [] [text_tag "strong" "1. Match the protocol to its layer"];
     Tag "ul" [] [item "TCP"; item "IP"]].

(** The only marked item has the text [Unknown]. *)
Definition doc_unknown_choice : node :=
  soup_of
    [Tag "p" [] [text_tag "strong" "1. Which state is reported?"];
     Tag "ul" []
       [Tag "li" [("class", VList ["correct_answer"])] [NavigableString "Unknown"];
        item "Known"]].

(** Two marked items. *)
Definition doc_two_answers : node :=
  soup_of
    [Tag "p" [] [text_tag "strong" "1. Which two are transport protocols?"];
     Tag "ul" []
       [Tag "li" [("class", VList ["correct_answer"])] [NavigableString "TCP"];
        item "IP";
        Tag "li" [("class", VList ["correct_answer"])] [NavigableString "UDP"]]].

(** A question in a bare emphasis tag before a question in a paragraph. *)
Definition doc_interleaved : node :=
  soup_of
    [text_tag "b" "1. First?"; Tag "ul" [] [item "a"];
     Tag "p" [] [text_tag "b" "2. Second?"]; Tag "ul" [] [item "b"]].

(** [<b>5.</b><b>What is TCP?</b>] with no paragraph around, then a list. *)
Definition doc_bare_pair : node :=
  soup_of
    [text_tag "b" "5."; text_tag "b" "What is TCP?"; Tag "ul" [] [item "a protocol"]].

(** [<p><strong>5. </strong><strong>What is TCP?</strong></p>], then a list. *)
Definition doc_merged : node :=
  soup_of
    [Tag "p" [] [text_tag "strong" "5. "; text_tag "strong" "What is TCP?"];
     Tag "ul" [] [item "a protocol"]].

(** The correct item is marked by a coloured [b]. *)
Definition doc_bold_color : node :=
  soup_of
    [Tag "p" [] [text_tag "strong" "1. Is TCP reliable?"];
     Tag "ul" []
       [Tag "li" [] [Tag "b" [("style", VStr "color: red")] [NavigableString "Yes"]];
        item "No"]].

Definition li_bold_color : element :=
  Element [1; 0]
    (Tag "li" [] [Tag "b" [("style", VStr "color: red")] [NavigableString "Yes"]]).

(** An ordering question with an unmarked list. *)
Definition doc_order : node :=
  soup_of
    [Tag "p" [] [text_tag "strong" "1. Put the steps in the right order"];
     Tag "ul" [] [item "SYN"; item "SYN-ACK"; item "ACK"]].

(** A matching question whose image is in the next paragraph. *)
Definition doc_exhibit : node :=
  soup_of
    [Tag "p" [] [text_tag "strong" "2. Match the following"];
     Tag "p" [] [Tag "img" [("src", VStr "exhibit.png")] []]].

(** A code block between the question and the list, and a second
    paragraph that continues the question. *)
Definition doc_pre : node :=
  soup_of
    [Tag "p" [] [text_tag "b" "3. What does  this print?"];
     NavigableString "
";
     Tag "pre" [] [NavigableString "  for i in range(3):

      print(i)
"];
     Tag "p" [] [text_tag "strong" "(choose  one)"];
     Tag "ul" []
       [item "0 1 2"; Tag "li" [] [Tag "span" [("style", VStr "color:red")] [NavigableString "0 1 2 &amp; done"]]]].

(** A paragraph whose emphasis tag is not a question. *)
Definition doc_note : node :=
  soup_of
    [Tag "p" [] [text_tag "strong" "Note: answers are marked in red."];
     Tag "ul" [] [item "a"; item "b"]].

(** A paragraph with the bare ordinal, then a paragraph whose emphasis
    tag continues the question with a matching task, then the list. *)
Definition doc_number_then_match : node :=
  soup_of
    [Tag "p" [] [text_tag "strong" "5."];
     Tag "p" [] [text_tag "strong" "Match the following"];
     Tag "ul" [] [item "a"; item "b"]].

(** A blank code block, then two code blocks with text, then the list. *)
Definition doc_two_pre : node :=
  soup_of
    [Tag "p" [] [text_tag "strong" "4. What is the value of x?"];
     text_tag "pre" "   ";
     text_tag "pre" "x = 1";
     text_tag "pre" "x = 2";
     Tag "ul" [] [item "1"; item "2"]].

End Documents.

(** ** Facts about the text functions *)

Module TextFacts.
Import Text.

Lemma digit_not_space c : isdigit c = true -> isspace c = false.
Proof.
  unfold isdigit, isspace; cbv zeta; intros H.
  apply andb_true_iff in H; destruct H as [H1 H2].
  apply Nat.leb_le in H1, H2.
  replace (nat_of_ascii c <=? 13)%nat with false by (symmetry; apply Nat.leb_gt; lia).
  replace (nat_of_ascii c <=? 32)%nat with false by (symmetry; apply Nat.leb_gt; lia).
  replace (nat_of_ascii c =? 133)%nat with false by (symmetry; apply Nat.eqb_neq; lia).
  replace (nat_of_ascii c =? 160)%nat with false by (symmetry; apply Nat.eqb_neq; lia).
  now rewrite !andb_false_r.
Qed.

Lemma digit_not_amp c : isdigit c = true -> Ascii.eqb c "&"%char = false.
Proof.
  intros H; destruct (Ascii.eqb_spec c "&"%char) as [->|]; [discriminate H | reflexivity].
Qed.

Lemma space_not_amp c : isspace c = true -> Ascii.eqb c "&"%char = false.
Proof.
  intros H; destruct (Ascii.eqb_spec c "&"%char) as [->|]; [discriminate H | reflexivity].
Qed.


Lemma starts_with_digit_nonempty s : starts_with_digit s = true -> s <> "".
Proof. destruct s; [discriminate | intros _ E; discriminate E]. Qed.

Lemma after_ordinal_digit s t : after_ordinal s = Some t -> starts_with_digit s = true.
Proof.
  unfold after_ordinal; destruct s as [|c r]; simpl; [discriminate|].
  destruct (isdigit c); [reflexivity|]; simpl.
  destruct (Ascii.eqb_spec c "."%char); discriminate.
Qed.

Lemma question_pattern_digit s : question_pattern s = true -> starts_with_digit s = true.
Proof.
  unfold question_pattern; destruct (after_ordinal s) eqn:E; [|discriminate].
  intros _; eapply after_ordinal_digit; eassumption.
Qed.

Lemma bare_ordinal_digit s : bare_ordinal s = true -> starts_with_digit s = true.
Proof.
  unfold bare_ordinal; destruct (after_ordinal s) eqn:E; [|discriminate].
  intros _; eapply after_ordinal_digit; eassumption.
Qed.

Lemma rstrip_head c r : isspace c = false -> rstrip (String c r) = String c (rstrip r).
Proof. intros H; simpl; now rewrite H. Qed.

Lemma rstrip_starts s : starts_with_digit s = true -> starts_with_digit (rstrip s) = true.
Proof.
  destruct s as [|c r]; [discriminate|]; intros H.
  rewrite rstrip_head by now apply digit_not_space. exact H.
Qed.

Lemma rstrip_starts_inv s : starts_with_digit (rstrip s) = true -> starts_with_digit s = true.
Proof.
  destruct s as [|c r]; [discriminate|]; simpl.
  destruct (isspace c && is_empty (rstrip r)); [discriminate | trivial].
Qed.

Lemma strip_leading s : starts_with_digit (strip s) = leading_digit s.
Proof.
  unfold strip, leading_digit.
  destruct (starts_with_digit (lstrip s)) eqn:E.
  - now apply rstrip_starts.
  - destruct (starts_with_digit (rstrip (lstrip s))) eqn:F; [|reflexivity].
    apply rstrip_starts_inv in F; congruence.
Qed.

Lemma lstrip_digit c r : isdigit c = true -> lstrip (String c r) = String c r.
Proof. intros H; simpl; now rewrite (digit_not_space _ H). Qed.

Lemma collapse_leading b s : leading_digit s = true -> leading_digit (collapse_ws b s) = true.
Proof.
  unfold leading_digit; revert b; induction s as [|c r IH]; intros b; [discriminate|].
  simpl; destruct (isspace c) eqn:Hc.
  - intros H; destruct b; simpl; [now apply IH | now apply IH].
  - simpl; rewrite Hc; trivial.
Qed.

Section WithCharref.
Variable charref : string -> option (string * nat).

Lemma unescape_leading s : leading_digit s = true -> leading_digit (unescape charref s) = true.
Proof.
  unfold leading_digit, unescape; induction s as [|c r IH]; [discriminate|].
  simpl; destruct (isspace c) eqn:Hc.
  - rewrite (space_not_amp _ Hc); simpl; rewrite Hc; exact IH.
  - simpl; intros H; rewrite (digit_not_amp _ H); simpl; rewrite Hc; exact H.
Qed.

(** [clean_text] keeps the ordinal at the head of a question. *)
Lemma clean_text_digit raw :
  leading_digit raw = true -> starts_with_digit (clean_text charref raw) = true.
Proof.
  intros H; unfold clean_text.
  destruct raw as [|c r]; [discriminate|]; simpl is_empty; cbv iota.
  rewrite strip_leading. now apply collapse_leading, unescape_leading.
Qed.

End WithCharref.

Lemma append_starts a b : starts_with_digit a = true -> starts_with_digit (a ++ b)%string = true.
Proof. destruct a; [discriminate | trivial]. Qed.

Lemma concat_starts sep a l :
  starts_with_digit a = true -> starts_with_digit (String.concat sep (a :: l)) = true.
Proof.
  intros H; destruct l; simpl; [exact H | now apply append_starts].
Qed.

(** No stripped text matches both ordinal patterns. *)
Lemma all_space_rstrip t : all_space t = true -> rstrip t = "".
Proof.
  induction t as [|c r IH]; [reflexivity|]; simpl.
  intros H; apply andb_true_iff in H; destruct H as [Hc Hr].
  now rewrite (IH Hr), Hc.
Qed.

Lemma rstrip_idem s : rstrip (rstrip s) = rstrip s.
Proof.
  induction s as [|c r IH]; [reflexivity|]; simpl.
  destruct (isspace c && is_empty (rstrip r)) eqn:E; [reflexivity|].
  simpl; now rewrite IH, E.
Qed.

Lemma rstrip_fixed_tail c r : rstrip (String c r) = String c r -> rstrip r = r.
Proof.
  simpl; destruct (isspace c && is_empty (rstrip r)); [discriminate|].
  now intros [= ->].
Qed.

Lemma skip_digits_fixed s :
  rstrip s = s -> rstrip (snd (skip_digits s)) = snd (skip_digits s).
Proof.
  induction s as [|c r IH]; [trivial|]; intros H.
  simpl skip_digits; destruct (isdigit c); [|exact H].
  specialize (IH (rstrip_fixed_tail _ _ H)).
  destruct (skip_digits r); exact IH.
Qed.

Lemma after_ordinal_fixed s t : rstrip s = s -> after_ordinal s = Some t -> rstrip t = t.
Proof.
  intros H; apply skip_digits_fixed in H; unfold after_ordinal.
  destruct (skip_digits s) as [n u]; simpl in H.
  destruct n; [discriminate|]. destruct u as [|c u]; [discriminate|].
  destruct c as [[] [] [] [] [] [] [] []]; try discriminate.
  intros [= <-]. exact (rstrip_fixed_tail _ _ H).
Qed.

(** A text without trailing whitespace that is a bare ordinal does
    not match the question pattern, which wants whitespace after the dot. *)
Lemma patterns_exclusive s :
  rstrip s = s -> bare_ordinal s = true -> question_pattern s = false.
Proof.
  unfold bare_ordinal, question_pattern; intros H.
  destruct (after_ordinal s) as [t|] eqn:E; [|reflexivity].
  apply (after_ordinal_fixed _ _ H) in E. intros Hs.
  rewrite (all_space_rstrip _ Hs) in E; now subst t.
Qed.

Lemma strip_fixed s : rstrip (strip s) = strip s.
Proof. apply rstrip_idem. Qed.

End TextFacts.

(** ** Document order *)

Module SoupFacts.
Import Soup.


Lemma descendants_Tag p name attrs contents :
  descendants p (Tag name attrs contents) = descendants_list p 0 contents.
Proof.
  simpl. generalize 0. induction contents as [|c r IH]; intros i; [reflexivity|].
  simpl. now rewrite IH.
Qed.

Lemma before_app p a b : before (p ++ a) (p ++ b) = before a b.
Proof.
  induction p as [|i p IH]; [reflexivity|]. simpl.
  now rewrite Nat.ltb_irrefl, Nat.eqb_refl, IH.
Qed.

Lemma before_irrefl p : before p p = false.
Proof.
  induction p as [|i p IH]; [reflexivity|]. simpl.
  now rewrite Nat.ltb_irrefl, Nat.eqb_refl, IH.
Qed.

Lemma StronglySorted_app {A} (R : A -> A -> Prop) (l m : list A) :
  StronglySorted R l -> StronglySorted R m ->
  (forall a b, In a l -> In b m -> R a b) ->
  StronglySorted R (l ++ m).
Proof.
  induction l as [|x l IH]; intros Hl Hm Hlm; [exact Hm|].
  apply StronglySorted_inv in Hl; destruct Hl as [Hl Hx].
  simpl; constructor.
  - apply IH; auto. intros a b Ha Hb; apply Hlm; [now right | exact Hb].
  - apply Forall_app; split; [exact Hx|].
    apply Forall_forall; intros b Hb; apply Hlm; [now left | exact Hb].
Qed.

Lemma StronglySorted_filter {A} (R : A -> A -> Prop) (f : A -> bool) (l : list A) :
  StronglySorted R l -> StronglySorted R (filter f l).
Proof.
  induction 1 as [|x l Hl IH Hx]; [constructor|].
  simpl; destruct (f x); [|exact IH].
  constructor; [exact IH|].
  apply Forall_forall; intros b Hb. apply filter_In in Hb.
  rewrite Forall_forall in Hx. now apply Hx.
Qed.


Lemma well_placed_list (l : list node) :
  Forall well_placed l ->
  forall p i, document_order (descendants_list p i l) /\
              Forall (below_from p i) (descendants_list p i l).
Proof.
  induction 1 as [|c r Hc Hr IH]; intros p i; simpl.
  - split; constructor.
  - destruct (Hc (p ++ [i])) as [Sc Bc]. destruct (IH p (S i)) as [Sr Br].
    rewrite Forall_forall in Bc, Br.
    assert (Hin : forall d, In d (descendants (p ++ [i]) c) ->
                            exists r', pos d = p ++ i :: r' /\ r' <> []).
    { intros d Hd. destruct (Bc d Hd) as (j & r' & E).
      exists (j :: r'). rewrite E, <- app_assoc. split; [reflexivity | discriminate]. }
    split.
    + constructor.
      * apply StronglySorted_app; [exact Sc | exact Sr |].
        intros a b Ha Hb. destruct (Hin a Ha) as (ra & Ea & _).
        destruct (Br b Hb) as (j & rb & Hj & Eb).
        unfold precedes. rewrite Ea, Eb, before_app. simpl.
        replace (i <? j)%nat with true by (symmetry; apply Nat.ltb_lt; lia).
        reflexivity.
      * apply Forall_app; split; apply Forall_forall; intros d Hd; unfold precedes; simpl.
        -- destruct (Hin d Hd) as (r' & E & Hne).
           rewrite E, before_app. simpl.
           rewrite Nat.ltb_irrefl, Nat.eqb_refl.
           destruct r'; [contradiction | reflexivity].
        -- destruct (Br d Hd) as (j & rb & Hj & Eb).
           rewrite Eb, before_app. simpl.
           replace (i <? j)%nat with true by (symmetry; apply Nat.ltb_lt; lia).
           reflexivity.
    + constructor; [exists i, []; split; [lia | reflexivity]|].
      apply Forall_app; split; apply Forall_forall; intros d Hd.
      * destruct (Hin d Hd) as (r' & E & _). exists i, r'. split; [lia | exact E].
      * destruct (Br d Hd) as (j & rb & Hj & Eb). exists j, rb. split; [lia | exact Eb].
Qed.

Lemma descendants_well_placed (n : node) : well_placed n.
Proof.
  induction n as [name attrs contents IH | s | s] using node_ind; intros p.
  - rewrite descendants_Tag. destruct (well_placed_list contents IH p 0) as [S0 B0].
    split; [exact S0|].
    eapply Forall_impl; [|exact B0]. intros d (j & r & _ & E). now exists j, r.
  - split; constructor.
  - split; constructor.
Qed.

(** [find_all] answers in document order. *)
Lemma find_all_document_order names e : document_order (find_all names e).
Proof.
  unfold find_all. apply StronglySorted_filter. apply descendants_well_placed.
Qed.

End SoupFacts.

(** ** The extractor: the loop, the anchors *)

Module ParserFacts.
Import Text Soup Parser TextFacts SoupFacts.

Section Loop.
Variable charref : string -> option (string * nat).

Lemma while_loop_fold fuel : forall m,
  counter m + fuel = List.length (all_elements (document m)) ->
  while_loop charref fuel m =
  Machine (document m)
    (fold_left (loop_body charref (document m)) (seq (counter m) fuel) (questions m))
    (counter m + fuel).
Proof.
  induction fuel as [|fuel IH]; intros [soup qs i] H; simpl in *.
  - now rewrite Nat.add_0_r.
  - replace (i <? List.length (all_elements soup))%nat with true
      by (symmetry; apply Nat.ltb_lt; lia).
    rewrite IH; simpl; [|lia]. f_equal. lia.
Qed.

Lemma run_fold soup :
  run charref soup =
  Machine soup
    (fold_left (loop_body charref soup) (seq 0 (List.length (all_elements soup))) [])
    (List.length (all_elements soup)).
Proof. unfold run. now rewrite while_loop_fold. Qed.

Lemma fold_loop_In soup d : forall l acc,
  In d (fold_left (loop_body charref soup) l acc) <->
  In d acc \/ exists i, In i l /\ process charref soup i = Some d.
Proof.
  induction l as [|i l IH]; intros acc; simpl.
  - split; [now left | intros [H | (i & [] & _)]; exact H].
  - rewrite IH. unfold loop_body.
    destruct (process charref soup i) as [d'|] eqn:E.
    + rewrite in_app_iff; simpl. split.
      * intros [[H | [<- | []]] | (j & Hj & Ej)]; eauto.
      * intros [H | (j & [<- | Hj] & Ej)]; eauto.
        left; right; left; congruence.
    + split.
      * intros [H | (j & Hj & Ej)]; eauto.
      * intros [H | (j & [<- | Hj] & Ej)]; eauto. congruence.
Qed.

(** The records of the output are the records of the turns. *)
Lemma extract_In soup d :
  In d (extract_quiz_data charref soup) <-> exists i, process charref soup i = Some d.
Proof.
  unfold extract_quiz_data. rewrite run_fold; simpl. rewrite fold_loop_In. split.
  - intros [[] | (i & _ & E)]; eauto.
  - intros (i & E). right. exists i. split; [|exact E].
    apply in_seq. split; [lia|]. simpl.
    apply nth_error_Some. unfold process in E.
    destruct (nth_error (all_elements soup) i); [discriminate | discriminate E].
Qed.

(** What a turn computes at an anchor. *)
Lemma process_anchor soup i element tag :
  anchor soup i element tag ->
  process charref soup i =
  let question_text := question_text_of charref tag in
  let st := scan_from charref soup element question_text in
  classify question_text st
    (add_pre st
       (assemble charref soup element question_text st
          (match find_img soup i element with
           | Some src => set_img src (set_question question_text empty_data)
           | None => set_question question_text empty_data
           end))).
Proof.
  intros (Hn & Ht & Hq). unfold process. rewrite Hn, Ht, Hq. reflexivity.
Qed.

(** Every record comes from an anchor. *)
Lemma process_has_anchor soup i d :
  process charref soup i = Some d -> exists element tag, anchor soup i element tag.
Proof.
  unfold process, anchor. destruct (nth_error (all_elements soup) i) as [e|]; [|discriminate].
  destruct (question_tag e) as [t|] eqn:Ht; [|discriminate].
  destruct (is_question t) eqn:Hq; [|discriminate]. intros _. now exists e, t.
Qed.

End Loop.

(** ** The extractor on the documents of the examples *)

Example sky_record :
  extract_quiz_data charref_basic Documents.doc_sky =
    [QuestionData (Some "1. What color is the sky?") None None None
       (Some ["Blue"; "Green"; "Red"]) (Some (VStr "Blue"))].
Proof. reflexivity. Qed.

Example exhibit_record :
  extract_quiz_data charref_basic Documents.doc_exhibit =
    [QuestionData (Some "2. Match the following") (Some (VStr "exhibit.png")) None
       (Some "special") (Some []) (Some (VStr "See image for the answer"))].
Proof. reflexivity. Qed.

Example pre_record :
  extract_quiz_data charref_basic Documents.doc_pre =
    [QuestionData (Some "3. What does this print? (choose one)") None
       (Some "for i in range(3):
print(i)") None
       (Some ["0 1 2"; "0 1 2 & done"]) (Some (VStr "0 1 2 & done"))].
Proof. reflexivity. Qed.

(** ** Classification *)

Lemma missed_of_order text :
  any_keyword ["order"; "drag and drop"; "sequence"] text = true ->
  any_keyword missed_keywords text = true.
Proof. unfold any_keyword, missed_keywords. simpl. intros ->. apply orb_true_r. Qed.

(** C1 (amended): at an anchor whose question tag has a normalized text
    (the initial question text, before anything is joined to it) that,
    lower-cased, holds one of the phrases "match", "question as
    presented", "refer to the exhibit" or "place the options in the
    following order", the turn of the loop yields a record, the record
    is in the output, and it has the type "special", no choices and the
    image sentinel as its answer, whatever the forward scan found. *)
Theorem special_type_law charref soup i element tag :
  anchor soup i element tag ->
  any_keyword
    ["match"; "question as presented"; "refer to the exhibit";
     "place the options in the following order"]
    (lower (question_text_of charref tag)) = true ->
  exists d,
    process charref soup i = Some d /\
    In d (extract_quiz_data charref soup) /\
    q_type d = Some "special" /\
    q_choices d = Some [] /\
    q_answer d = Some (VStr "See image for the answer").
Proof.
  intros Ha Hs. pose proof (process_anchor charref soup i element tag Ha) as E.
  cbv zeta in E. unfold classify in E. fold special_keywords in Hs. rewrite Hs in E.
  eexists. split; [exact E|]. split; [apply extract_In; exists i; exact E|].
  repeat split.
Qed.

Lemma special_type_law_witness :
  anchor Documents.doc_match 0
    (Element [0] (Tag "p" [] [Documents.text_tag "strong" "1. Match the protocol to its layer"]))
    (Element [0; 0] (Documents.text_tag "strong" "1. Match the protocol to its layer")) /\
  exists d,
    process charref_basic Documents.doc_match 0 = Some d /\
    In d (extract_quiz_data charref_basic Documents.doc_match) /\
    q_type d = Some "special" /\
    q_choices d = Some [] /\
    q_answer d = Some (VStr "See image for the answer").
Proof.
  assert (Ha : anchor Documents.doc_match 0
    (Element [0] (Tag "p" [] [Documents.text_tag "strong" "1. Match the protocol to its layer"]))
    (Element [0; 0] (Documents.text_tag "strong" "1. Match the protocol to its layer"))).
  { repeat split; reflexivity. }
  split; [exact Ha|].
  apply (special_type_law charref_basic Documents.doc_match 0 _ _ Ha).
  reflexivity.
Defined.

(** In [doc_number_then_match] the phrase is in a continuation part: the
    question of the record holds "match", and the record is not special,
    keeps its choices and has the "unknown" sentinel as its answer. *)
Lemma special_phrase_in_continuation :
  extract_quiz_data charref_basic Documents.doc_number_then_match =
    [QuestionData (Some "5. Match the following") None None None
       (Some ["a"; "b"]) (Some (VStr "Unknown"))] /\
  any_keyword
    ["match"; "question as presented"; "refer to the exhibit";
     "place the options in the following order"]
    (lower "5. Match the following") = true /\
  q_type
    (QuestionData (Some "5. Match the following") None None None
       (Some ["a"; "b"]) (Some (VStr "Unknown"))) <> Some "special"%string /\
  q_choices
    (QuestionData (Some "5. Match the following") None None None
       (Some ["a"; "b"]) (Some (VStr "Unknown"))) <> Some [] /\
  q_answer
    (QuestionData (Some "5. Match the following") None None None
       (Some ["a"; "b"]) (Some (VStr "Unknown")))
  <> Some (VStr "See image for the answer").
Proof. repeat split; try reflexivity; discriminate. Qed.

(** C10: at an anchor where the scan found choices and no marked item,
    and whose lower-cased question text holds none of the primary
    phrases but one of "order", "drag and drop" or "sequence", the
    record is special with the image sentinel as its answer, and its
    choices are the extracted list, which is not empty. *)
Theorem missed_special_keeps_choices charref soup i element tag :
  anchor soup i element tag ->
  choices (scan_from charref soup element (question_text_of charref tag)) <> [] ->
  correct_answers (scan_from charref soup element (question_text_of charref tag)) = [] ->
  any_keyword special_keywords (lower (question_text_of charref tag)) = false ->
  any_keyword ["order"; "drag and drop"; "sequence"]
    (lower (question_text_of charref tag)) = true ->
  exists d,
    process charref soup i = Some d /\
    In d (extract_quiz_data charref soup) /\
    q_type d = Some "special" /\
    q_answer d = Some (VStr "See image for the answer") /\
    q_choices d = Some (choices (scan_from charref soup element (question_text_of charref tag))) /\
    q_choices d <> Some [].
Proof.
  intros Ha Hc Hn Hs Hm. apply missed_of_order in Hm.
  pose proof (process_anchor charref soup i element tag Ha) as E.
  cbv zeta in E. unfold classify in E. rewrite Hs, Hn, Hm in E.
  destruct (choices (scan_from charref soup element (question_text_of charref tag)))
    as [|c cs] eqn:Ec; [contradiction|].
  eexists. split; [exact E|]. split; [apply extract_In; exists i; exact E|].
  repeat split. discriminate.
Qed.

Lemma missed_special_keeps_choices_witness :
  exists d,
    process charref_basic Documents.doc_order 0 = Some d /\
    In d (extract_quiz_data charref_basic Documents.doc_order) /\
    q_type d = Some "special" /\
    q_answer d = Some (VStr "See image for the answer") /\
    q_choices d = Some ["SYN"; "SYN-ACK"; "ACK"] /\
    q_choices d <> Some [].
Proof.
  apply (missed_special_keeps_choices charref_basic Documents.doc_order 0
           (Element [0] (Tag "p" [] [Documents.text_tag "strong" "1. Put the steps in the right order"]))
           (Element [0; 0] (Documents.text_tag "strong" "1. Put the steps in the right order"))).
  - repeat split; reflexivity.
  - vm_compute; discriminate.
  - reflexivity.
  - reflexivity.
  - reflexivity.
Defined.

(** C2 (amended): at an anchor whose question-tag text (the initial
    question text, lower-cased) holds no primary phrase and where the
    scan found choices, a record is emitted with these choices, and with
    [ca] the collected correct answers: if exactly one was collected the
    answer is that string, and a string that is neither sentinel is the
    answer iff it is the one collected; the answer is a string iff at
    most one was collected; the answer is a list iff more than one was
    collected, and it is then the list [ca]; the answer is the string
    "Unknown" iff none was collected and the question-tag text holds no
    secondary keyword, or the one collected answer is itself the text
    "Unknown"; with none collected and a secondary keyword in the
    question-tag text the record is special with the image sentinel. *)
Theorem answer_cardinality charref soup i element tag :
  anchor soup i element tag ->
  let question_text := question_text_of charref tag in
  let st := scan_from charref soup element question_text in
  let ca := correct_answers st in
  any_keyword special_keywords (lower question_text) = false ->
  choices st <> [] ->
  exists d,
    process charref soup i = Some d /\
    In d (extract_quiz_data charref soup) /\
    q_choices d = Some (choices st) /\
    (forall a, ca = [a] -> q_answer d = Some (VStr a)) /\
    (forall a, a <> "Unknown"%string -> a <> "See image for the answer"%string ->
       (q_answer d = Some (VStr a) <-> ca = [a])) /\
    ((exists a, q_answer d = Some (VStr a)) <-> List.length ca <= 1) /\
    ((exists l, q_answer d = Some (VList l)) <-> 1 < List.length ca) /\
    (1 < List.length ca -> q_answer d = Some (VList ca)) /\
    (q_answer d = Some (VStr "Unknown") <->
       (ca = [] /\ any_keyword missed_keywords (lower question_text) = false) \/
       ca = ["Unknown"%string]) /\
    (ca = [] -> any_keyword missed_keywords (lower question_text) = true ->
       q_answer d = Some (VStr "See image for the answer") /\
       q_type d = Some "special"%string).
Proof.
  intros Ha question_text st ca Hs Hc.
  pose proof (process_anchor charref soup i element tag Ha) as E.
  cbv zeta in E. fold question_text in E. fold st in E.
  unfold classify in E. rewrite Hs in E. fold ca in E.
  destruct (choices st) as [|c cs] eqn:Ec; [contradiction|].
  destruct ca as [|a [|b r]] eqn:Eca.
  - destruct (any_keyword missed_keywords (lower question_text)) eqn:Em;
      (eexists; split; [exact E|]; split; [apply extract_In; exists i; exact E|]);
      simpl; (split; [reflexivity|]); (split; [discriminate|]).
    + split.
      { intros x Hu Hi. split; [intros [= <-]; now contradiction Hi | discriminate]. }
      split; [split; [lia | eauto]|].
      split; [split; [intros [l Hl]; discriminate Hl | lia]|].
      split; [lia|]. split; [|auto].
      split; [discriminate | intros [[_ Hx] | Hx]; discriminate Hx].
    + split.
      { intros x Hu Hi. split; [intros [= <-]; now contradiction Hu | discriminate]. }
      split; [split; [lia | eauto]|].
      split; [split; [intros [l Hl]; discriminate Hl | lia]|].
      split; [lia|]. split; [|discriminate].
      split; [auto | reflexivity].
  - eexists; split; [exact E|]; split; [apply extract_In; exists i; exact E|].
    simpl. split; [reflexivity|].
    split; [now intros x [= <-]|].
    split; [intros x _ _; split; [now intros [= <-] | now intros [= <-]]|].
    split; [split; [lia | eauto]|].
    split; [split; [intros [l Hl]; discriminate Hl | lia]|].
    split; [lia|]. split; [|discriminate].
    split; [intros [= ->]; now right | intros [[Hx _] | [= ->]]; [discriminate Hx | reflexivity]].
  - eexists; split; [exact E|]; split; [apply extract_In; exists i; exact E|].
    simpl. split; [reflexivity|].
    split; [discriminate|].
    split; [intros x _ _; split; discriminate|].
    split; [split; [intros [x Hx]; discriminate Hx | lia]|].
    split; [split; [lia | eauto]|].
    split; [reflexivity|]. split; [|discriminate].
    split; [discriminate | intros [[Hx _] | Hx]; discriminate Hx].
Qed.

Lemma answer_cardinality_witness :
  exists d,
    process charref_basic Documents.doc_two_answers 0 = Some d /\
    q_choices d = Some ["TCP"; "IP"; "UDP"]%string /\
    q_answer d = Some (VList ["TCP"; "UDP"]%string).
Proof.
  destruct (answer_cardinality charref_basic Documents.doc_two_answers 0
              (Element [0]
                 (Tag "p" [] [Documents.text_tag "strong" "1. Which two are transport protocols?"]))
              (Element [0; 0]
                 (Documents.text_tag "strong" "1. Which two are transport protocols?")))
    as (d & Hp & _ & Hc & _ & _ & _ & _ & Hl & _).
  - repeat split; reflexivity.
  - reflexivity.
  - vm_compute; discriminate.
  - exists d. split; [exact Hp|]. split; [exact Hc|].
    apply Hl. vm_compute. lia.
Defined.

(** The record of [doc_unknown_choice]: one item is marked, its text is
    "Unknown", and so is the answer; the answer is the string of the
    "unknown" sentinel although a marker was collected. *)
Lemma unknown_answer_with_one_marker :
  anchor Documents.doc_unknown_choice 0
    (Element [0] (Tag "p" [] [Documents.text_tag "strong" "1. Which state is reported?"]))
    (Element [0; 0] (Documents.text_tag "strong" "1. Which state is reported?")) /\
  any_keyword special_keywords (lower "1. Which state is reported?") = false /\
  correct_answers
    (scan_from charref_basic Documents.doc_unknown_choice
       (Element [0] (Tag "p" [] [Documents.text_tag "strong" "1. Which state is reported?"]))
       "1. Which state is reported?") = ["Unknown"] /\
  process charref_basic Documents.doc_unknown_choice 0 =
    Some (QuestionData (Some "1. Which state is reported?") None None None
            (Some ["Unknown"; "Known"]) (Some (VStr "Unknown"))) /\
  ~ (Some (VStr "Unknown") = Some (VStr unknown) <->
     List.length
       (correct_answers
          (scan_from charref_basic Documents.doc_unknown_choice
             (Element [0] (Tag "p" [] [Documents.text_tag "strong" "1. Which state is reported?"]))
             "1. Which state is reported?")) = 0 /\
     any_keyword missed_keywords (lower "1. Which state is reported?") = false).
Proof.
  split; [repeat split; reflexivity|].
  split; [reflexivity|]. split; [reflexivity|]. split; [reflexivity|].
  intros [H _]. destruct (H eq_refl) as [H0 _]. vm_compute in H0. discriminate H0.
Qed.

(** ** The forward scan: choices and correct answers *)

Lemma find_filter_existsb {A} (f g : A -> bool) (l : list A) :
  match List.find f (filter g l) with Some _ => true | None => false end =
  existsb (fun t => g t && f t) l.
Proof.
  induction l as [|x l IH]; [reflexivity|]. simpl.
  destruct (g x); simpl; [|exact IH]. destruct (f x); [reflexivity | exact IH].
Qed.

Lemma colored_tag_has_colored li :
  match colored_tag li with Some _ => true | None => false end =
  has_colored ["span"; "strong"] li.
Proof. unfold colored_tag, find_all, has_colored. apply find_filter_existsb. Qed.

Lemma collect_choices_spec charref li_elements : forall cs ca,
  collect_choices charref li_elements cs ca =
  (cs ++ map (choice_text_of charref) (filter (has_choice_text charref) li_elements),
   ca ++ map (choice_text_of charref)
           (filter (fun li => has_choice_text charref li && marked li) li_elements)).
Proof.
  induction li_elements as [|li rest IH]; intros cs ca.
  - simpl. now rewrite !app_nil_r.
  - assert (Hh : has_choice_text charref li =
                 negb (is_empty (clean_text charref (get_text (elt li))))) by reflexivity.
    assert (Hm : marked li =
                 match colored_tag li with Some _ => true | None => false end
                 || has_correct_class li)
      by (unfold marked; now rewrite colored_tag_has_colored).
    cbn [collect_choices filter]. rewrite Hh, Hm.
    destruct (is_empty (clean_text charref (get_text (elt li)))); cbn [negb andb]; [apply IH|].
    destruct (colored_tag li); cbn [orb map].
    + rewrite IH, <- !app_assoc. reflexivity.
    + destruct (has_correct_class li); cbn [map]; rewrite IH, <- ?app_assoc; reflexivity.
Qed.

(** C8 (amended): the loop over the list items keeps the items whose
    text is not empty, and collects as correct exactly those of them
    that have, somewhere below them, a [span] or [strong] tag whose
    style holds the text [color:], or that carry the class
    [correct_answer] themselves; a coloured [b] tag does not count.
    Both lists keep the order of the items. *)
Theorem correct_answer_marker charref li_elements :
  collect_choices charref li_elements [] [] =
  (map (choice_text_of charref) (filter (has_choice_text charref) li_elements),
   map (choice_text_of charref)
     (filter
        (fun li =>
           has_choice_text charref li &&
           (has_colored ["span"; "strong"] li || has_correct_class li))
        li_elements)).
Proof. apply collect_choices_spec. Qed.

(** An item with a coloured [b] tag has the marker when both spellings
    of the emphasis tag count, and the loop does not collect it: the
    answer of the record is the "unknown" sentinel. *)
Lemma colored_b_not_collected :
  has_choice_text charref_basic Documents.li_bold_color = true /\
  marked_either_spelling Documents.li_bold_color = true /\
  collect_choices charref_basic [Documents.li_bold_color] [] [] = (["Yes"], []) /\
  ~ (In (choice_text_of charref_basic Documents.li_bold_color)
       (snd (collect_choices charref_basic [Documents.li_bold_color] [] [])) <->
     marked_either_spelling Documents.li_bold_color = true) /\
  extract_quiz_data charref_basic Documents.doc_bold_color =
    [QuestionData (Some "1. Is TCP reliable?") None None None
       (Some ["Yes"; "No"]) (Some (VStr "Unknown"))].
Proof.
  repeat split; try reflexivity.
  intros [_ H]. exact (H eq_refl).
Qed.

Lemma scan_spec charref siblings : forall st,
  scan charref siblings st =
  match matched_list siblings with
  | Some ul =>
      ScanState
        (fst (collect_choices charref (find_all ["li"] ul) (choices st) (correct_answers st)))
        (snd (collect_choices charref (find_all ["li"] ul) (choices st) (correct_answers st)))
        (question_parts (scan charref siblings st))
        (pre_content (scan charref siblings st))
  | None =>
      ScanState (choices st) (correct_answers st)
        (question_parts (scan charref siblings st))
        (pre_content (scan charref siblings st))
  end.
Proof.
  induction siblings as [|cur rest IH]; intros st; simpl.
  - now destruct st.
  - destruct (has_name ["ul"] (elt cur)).
    { destruct (collect_choices charref (find_all ["li"] cur) (choices st) (correct_answers st));
        reflexivity. }
    destruct (has_name ["p"] (elt cur)).
    { destruct (strong_or_b cur) as [tag|].
      - destruct (question_pattern (strip (get_text (elt tag)))); [now destruct st|].
        rewrite IH at 1. reflexivity.
      - apply IH. }
    destruct (has_name ["pre"] (elt cur)).
    { rewrite IH at 1. destruct (falsy (pre_content st)); reflexivity. }
    apply IH.
Qed.

(** The first question part is the text the scan starts with. *)
Lemma scan_parts charref siblings : forall st,
  exists more, question_parts (scan charref siblings st) = question_parts st ++ more.
Proof.
  induction siblings as [|cur rest IH]; intros st; simpl.
  - exists []. now rewrite app_nil_r.
  - destruct (has_name ["ul"] (elt cur)).
    { destruct (collect_choices charref (find_all ["li"] cur) (choices st) (correct_answers st)).
      exists []. simpl. now rewrite app_nil_r. }
    destruct (has_name ["p"] (elt cur)).
    { destruct (strong_or_b cur) as [tag|]; [|apply IH].
      destruct (question_pattern (strip (get_text (elt tag)))).
      - exists []. now rewrite app_nil_r.
      - destruct (IH (ScanState (choices st) (correct_answers st)
                        (question_parts st ++ [clean_text charref (get_text (elt tag))])
                        (pre_content st))) as [more E].
        rewrite E. simpl. rewrite <- app_assoc. eauto. }
    destruct (has_name ["pre"] (elt cur)); [|apply IH].
    destruct (falsy (pre_content st)); [|apply IH].
    destruct (IH (ScanState (choices st) (correct_answers st) (question_parts st)
                    (Some (pre_text (get_text (elt cur)))))) as [more E].
    rewrite E. simpl. eauto.
Qed.

Lemma matched_list_ul siblings ul :
  matched_list siblings = Some ul -> has_name ["ul"] (elt ul) = true.
Proof.
  induction siblings as [|cur rest IH]; simpl; [discriminate|].
  destruct (has_name ["ul"] (elt cur)) eqn:E; [now intros [= <-]|].
  destruct (has_name ["p"] (elt cur)); [|exact IH].
  destruct (strong_or_b cur) as [tag|]; [|exact IH].
  destruct (question_pattern (strip (get_text (elt tag)))); [discriminate | exact IH].
Qed.

Lemma classify_choices question_text st d d' :
  classify question_text st d = Some d' ->
  any_keyword special_keywords (lower question_text) = false ->
  choices st <> [] /\ q_choices d' = Some (choices st).
Proof.
  unfold classify. intros E Hs. rewrite Hs in E.
  destruct (choices st) as [|c cs]; [discriminate|]. split; [discriminate|].
  destruct (correct_answers st) as [|a [|b r]];
    [destruct (any_keyword missed_keywords (lower question_text))|..];
    injection E as <-; reflexivity.
Qed.

(** C6 (amended): for a record emitted at an anchor, when the
    question-tag text (the initial question text, lower-cased) holds no
    primary special phrase, the scan has matched a list, the first [ul]
    it reaches, and the choices are the normalized texts of the items
    under that list, the empty ones left out, in the order of the items;
    when it holds one, the choices are empty. *)
Theorem choices_roundtrip charref soup i element tag d :
  anchor soup i element tag ->
  process charref soup i = Some d ->
  if any_keyword special_keywords (lower (question_text_of charref tag))
  then q_choices d = Some []
  else
    exists ul,
      matched_list (find_next_siblings soup element) = Some ul /\
      has_name ["ul"] (elt ul) = true /\
      q_choices d =
        Some (map (choice_text_of charref)
                (filter (has_choice_text charref) (find_all ["li"] ul))).
Proof.
  intros Ha E. rewrite (process_anchor charref soup i element tag Ha) in E.
  cbv zeta in E.
  destruct (any_keyword special_keywords (lower (question_text_of charref tag))) eqn:Hs.
  { unfold classify in E. rewrite Hs in E. now injection E as <-. }
  apply classify_choices in E; [|exact Hs]. destruct E as [Hne ->].
  unfold scan_from in *. rewrite scan_spec in Hne |- *. simpl in Hne |- *.
  destruct (matched_list (find_next_siblings soup element)) as [ul|] eqn:Em.
  - exists ul. split; [reflexivity|]. split; [eapply matched_list_ul; exact Em|].
    simpl. now rewrite collect_choices_spec.
  - now contradiction Hne.
Qed.

Lemma choices_roundtrip_witness :
  exists ul,
    matched_list
      (find_next_siblings Documents.doc_sky
         (Element [0] (Tag "p" [] [Documents.text_tag "strong" "1. What color is the sky?"])))
    = Some ul /\
    has_name ["ul"] (elt ul) = true /\
    Some ["Blue"; "Green"; "Red"]%string =
      Some (map (choice_text_of charref_basic)
              (filter (has_choice_text charref_basic) (find_all ["li"] ul))).
Proof.
  apply (choices_roundtrip charref_basic Documents.doc_sky 0
           (Element [0] (Tag "p" [] [Documents.text_tag "strong" "1. What color is the sky?"]))
           (Element [0; 0] (Documents.text_tag "strong" "1. What color is the sky?"))
           (QuestionData (Some "1. What color is the sky?") None None None
              (Some ["Blue"; "Green"; "Red"]) (Some (VStr "Blue")))).
  - repeat split; reflexivity.
  - reflexivity.
Defined.

(** The record of [doc_match] has no choices, though the list matched by
    the scan has two items with text. *)
Lemma special_record_drops_choices :
  process charref_basic Documents.doc_match 0 =
    Some (QuestionData (Some "1. Match the protocol to its layer") None None
            (Some "special") (Some []) (Some (VStr "See image for the answer"))) /\
  matched_list
    (find_next_siblings Documents.doc_match
       (Element [0] (Tag "p" [] [Documents.text_tag "strong" "1. Match the protocol to its layer"])))
  = Some (Element [1] (Tag "ul" [] [Documents.item "TCP"; Documents.item "IP"])) /\
  q_choices
    (QuestionData (Some "1. Match the protocol to its layer") None None
       (Some "special") (Some []) (Some (VStr "See image for the answer")))
  <> Some (map (choice_text_of charref_basic)
             (filter (has_choice_text charref_basic)
                (find_all ["li"]
                   (Element [1] (Tag "ul" [] [Documents.item "TCP"; Documents.item "IP"]))))).
Proof. repeat split; try reflexivity. vm_compute. discriminate. Qed.

(** ** The question of a record *)

Lemma combined_part_starts part :
  starts_with_digit part = true -> starts_with_digit (combined_part part) = true.
Proof.
  intros H. unfold combined_part. destruct (bare_ordinal part); [|exact H].
  now apply rstrip_starts.
Qed.

Lemma is_question_leading tag :
  is_question tag = true -> leading_digit (get_text (elt tag)) = true.
Proof.
  unfold is_question. cbv zeta. intros H. rewrite <- strip_leading.
  apply orb_true_iff in H. destruct H as [H | H].
  - now apply question_pattern_digit.
  - now apply bare_ordinal_digit.
Qed.

Lemma assemble_question charref soup element question_text d :
  starts_with_digit question_text = true ->
  q_question d = Some question_text ->
  exists q,
    q_question
      (assemble charref soup element question_text
         (scan_from charref soup element question_text) d) = Some q /\
    starts_with_digit q = true.
Proof.
  intros Hd Hq. unfold assemble.
  destruct (scan_parts charref (find_next_siblings soup element)
              (ScanState [] [] [question_text] None)) as [more E].
  unfold scan_from. rewrite E. simpl question_parts.
  destruct (1 <? List.length ([question_text] ++ more))%nat.
  - eexists. split; [reflexivity|]. simpl map.
    apply concat_starts. now apply combined_part_starts.
  - destruct (bare_ordinal question_text); [|eauto].
    destruct (has_name emphasis (elt element)); [|eauto].
    destruct (next_sibling soup element) as [next_elem|]; [|eauto].
    destruct (has_name emphasis (elt next_elem)); [|eauto].
    eexists. split; [reflexivity|]. apply append_starts. now apply rstrip_starts.
Qed.

Lemma add_pre_question st d : q_question (add_pre st d) = q_question d.
Proof.
  unfold add_pre. destruct (pre_content st) as [p|]; [|reflexivity].
  destruct (is_empty p); reflexivity.
Qed.

Lemma classify_question question_text st d d' :
  classify question_text st d = Some d' ->
  q_question d' = q_question d /\ exists a, q_answer d' = Some a.
Proof.
  unfold classify.
  destruct (any_keyword special_keywords (lower question_text)).
  { intros [= <-]. simpl. eauto. }
  destruct (choices st) as [|c cs]; [discriminate|].
  destruct (correct_answers st) as [|a [|b r]];
    [destruct (any_keyword missed_keywords (lower question_text))|..];
    intros [= <-]; simpl; eauto.
Qed.

(** C7: every record of the output has a question that is not the empty
    string: it starts with the digits of its ordinal, and normalizing it
    again (decoding, collapsing whitespace, trimming) leaves text; and
    the record has an answer. *)
Theorem question_nonempty_answer_present charref soup d :
  In d (extract_quiz_data charref soup) ->
  exists q a,
    q_question d = Some q /\
    q <> "" /\
    starts_with_digit q = true /\
    clean_text charref q <> "" /\
    q_answer d = Some a.
Proof.
  intros Hin. apply extract_In in Hin. destruct Hin as [i E].
  destruct (process_has_anchor charref soup i d E) as (element & tag & Ha).
  rewrite (process_anchor charref soup i element tag Ha) in E. cbv zeta in E.
  apply classify_question in E. destruct E as [Eq [a Ea]].
  rewrite add_pre_question in Eq.
  destruct Ha as (_ & _ & Hq). apply is_question_leading in Hq.
  apply (clean_text_digit charref) in Hq. fold (question_text_of charref tag) in Hq.
  destruct (assemble_question charref soup element (question_text_of charref tag)
              (match find_img soup i element with
               | Some src => set_img src (set_question (question_text_of charref tag) empty_data)
               | None => set_question (question_text_of charref tag) empty_data
               end) Hq) as (q & Eq' & Hd).
  { destruct (find_img soup i element); reflexivity. }
  exists q, a. rewrite Eq, Eq'. repeat split; trivial.
  - now apply starts_with_digit_nonempty.
  - apply starts_with_digit_nonempty, clean_text_digit.
    unfold leading_digit. destruct q as [|c r]; [discriminate|].
    now rewrite lstrip_digit.
Qed.

Lemma question_nonempty_answer_present_witness :
  exists q a,
    q_question
      (QuestionData (Some "1. What color is the sky?") None None None
         (Some ["Blue"; "Green"; "Red"]) (Some (VStr "Blue"))) = Some q /\
    q <> "" /\
    starts_with_digit q = true /\
    clean_text charref_basic q <> "" /\
    q_answer
      (QuestionData (Some "1. What color is the sky?") None None None
         (Some ["Blue"; "Green"; "Red"]) (Some (VStr "Blue"))) = Some a.
Proof.
  apply (question_nonempty_answer_present charref_basic Documents.doc_sky).
  left. reflexivity.
Defined.

(** ** The anchors *)

(** A standalone tag matches the question pattern, so its text is never
    a bare ordinal: of the tags that pass the first test of the loop
    over the emphasis tags, none is "5." alone. *)
Lemma standalone_not_bare soup tag :
  In tag (standalone_tags soup) ->
  question_pattern (strip (get_text (elt tag))) = true /\
  bare_ordinal (strip (get_text (elt tag))) = false.
Proof.
  unfold standalone_tags. intros H. apply filter_In in H. destruct H as [_ H].
  unfold is_standalone in H. apply andb_true_iff in H. destruct H as [H _].
  split; [exact H|].
  destruct (bare_ordinal (strip (get_text (elt tag)))) eqn:E; [|reflexivity].
  rewrite (patterns_exclusive _ (strip_fixed _) E) in H. discriminate H.
Qed.

(** C3 (amended): the anchors are the paragraphs, in document order,
    followed by the standalone emphasis tags, in document order: the two
    groups are put one after the other and are not merged. *)
Theorem anchors_paragraphs_then_standalone soup :
  all_elements soup =
    find_all ["p"] (root soup) ++
    filter (is_standalone soup) (find_all ["strong"; "b"] (root soup)) /\
  document_order (find_all ["p"] (root soup)) /\
  document_order (filter (is_standalone soup) (find_all ["strong"; "b"] (root soup))).
Proof.
  split; [reflexivity|]. split.
  - apply find_all_document_order.
  - apply StronglySorted_filter, find_all_document_order.
Qed.

(** In [doc_interleaved] the paragraph of the second question comes
    first among the anchors, before the emphasis tag of the first
    question, and the records come out in that order. *)
Lemma anchors_not_in_document_order :
  all_elements Documents.doc_interleaved =
    [Element [2] (Tag "p" [] [Documents.text_tag "b" "2. Second?"]);
     Element [0] (Documents.text_tag "b" "1. First?")] /\
  ~ document_order (all_elements Documents.doc_interleaved) /\
  extract_quiz_data charref_basic Documents.doc_interleaved =
    [QuestionData (Some "2. Second?") None None None (Some ["b"]) (Some (VStr "Unknown"));
     QuestionData (Some "1. First?") None None None (Some ["a"]) (Some (VStr "Unknown"))].
Proof.
  split; [reflexivity|]. split; [|reflexivity].
  intros H. apply StronglySorted_inv in H. destruct H as [_ H].
  apply Forall_inv in H. discriminate H.
Qed.

(** C4: on [<b>5.</b><b>What is TCP?</b><ul>...</ul>] the extractor has
    no anchor at all and returns no record: the bare ordinal fails the
    question pattern, which is the only test for a standalone tag. *)
Theorem bare_pair_yields_no_record charref :
  find_parent Documents.doc_bare_pair "p" (Element [0] (Documents.text_tag "b" "5.")) = None /\
  bare_ordinal (strip (get_text (Documents.text_tag "b" "5."))) = true /\
  is_standalone Documents.doc_bare_pair (Element [0] (Documents.text_tag "b" "5.")) = false /\
  all_elements Documents.doc_bare_pair = [] /\
  extract_quiz_data charref Documents.doc_bare_pair = [].
Proof. repeat split; reflexivity. Qed.

(** C5: in [<p><strong>5. </strong><strong>What is TCP?</strong></p>]
    the paragraph has two emphasis tags and the first is a bare ordinal
    followed by another, and the tag is not made a standalone anchor:
    the only anchor is the paragraph, and its record has the question
    "5." *)
Theorem merged_number_not_standalone charref :
  find_all emphasis
    (Element [0] (Tag "p" [] [Documents.text_tag "strong" "5. ";
                              Documents.text_tag "strong" "What is TCP?"])) =
    [Element [0; 0] (Documents.text_tag "strong" "5. ");
     Element [0; 1] (Documents.text_tag "strong" "What is TCP?")] /\
  bare_ordinal (strip (get_text (Documents.text_tag "strong" "5. "))) = true /\
  standalone_tags Documents.doc_merged = [] /\
  all_elements Documents.doc_merged =
    [Element [0] (Tag "p" [] [Documents.text_tag "strong" "5. ";
                              Documents.text_tag "strong" "What is TCP?"])] /\
  extract_quiz_data charref Documents.doc_merged =
    [QuestionData (Some "5.") None None None (Some ["a protocol"]) (Some (VStr "Unknown"))].
Proof. repeat split; reflexivity. Qed.

End ParserFacts.

(** ** [clean_text]: what a normalized text is *)

Module Normalization.
Import Text TextFacts Parser.

Lemma collapse_collapsed s : forall b,
  collapsed (collapse_ws b s) = true /\
  (b = true -> head_not_space (collapse_ws b s) = true).
Proof.
  induction s as [|c r IH]; intros b; simpl; [now split|].
  destruct (isspace c) eqn:Hc.
  - destruct (IH true) as [Hr Hh]. specialize (Hh eq_refl).
    destruct b; [split; [exact Hr | intros _; exact Hh]|].
    split; [|discriminate]. simpl. rewrite Hr, andb_true_r.
    destruct (collapse_ws true r); [reflexivity | exact Hh].
  - destruct (IH false) as [Hr _]. simpl. rewrite Hc, Hr. split; [reflexivity|].
    intros _. reflexivity.
Qed.

Lemma collapsed_tail c r : collapsed (String c r) = true -> collapsed r = true.
Proof. simpl. intros H. now apply andb_true_iff in H. Qed.

Lemma lstrip_collapsed s : collapsed s = true -> collapsed (lstrip s) = true.
Proof.
  induction s as [|c r IH]; [trivial|]. intros H. simpl lstrip.
  destruct (isspace c); [apply IH; exact (collapsed_tail _ _ H) | exact H].
Qed.

Lemma lstrip_head s : head_not_space (lstrip s) = true.
Proof.
  induction s as [|c r IH]; [reflexivity|]. simpl.
  destruct (isspace c) eqn:Hc; [exact IH | simpl; now rewrite Hc].
Qed.

Lemma rstrip_keeps_head s : head_not_space s = true -> head_not_space (rstrip s) = true.
Proof.
  destruct s as [|c r]; [trivial|]. simpl. intros H.
  apply negb_true_iff in H. rewrite H. simpl. now rewrite H.
Qed.

Lemma rstrip_spaced s : collapsed s = true -> spaced (rstrip s) = true.
Proof.
  induction s as [|c r IH]; [trivial|]. intros H.
  pose proof (IH (collapsed_tail _ _ H)) as Hr.
  simpl in H. apply andb_true_iff in H. destruct H as [Hc _].
  simpl rstrip. destruct (isspace c) eqn:Ec; simpl.
  - destruct (is_empty (rstrip r)) eqn:Ee; [reflexivity|].
    simpl. rewrite Ec, Hr, andb_true_r.
    apply andb_true_iff in Hc. destruct Hc as [Hsp Hnext]. rewrite Hsp. simpl.
    destruct r as [|d r']; [discriminate Ee|].
    apply negb_true_iff in Hnext. rewrite (rstrip_head _ _ Hnext).
    now rewrite Hnext.
  - now rewrite Ec, Hr.
Qed.

Lemma strip_normalized s : collapsed s = true -> normalized (strip s) = true.
Proof.
  intros H. unfold normalized, strip. apply andb_true_iff. split.
  - change (head_not_space (rstrip (lstrip s)) = true).
    apply rstrip_keeps_head, lstrip_head.
  - apply rstrip_spaced, lstrip_collapsed, H.
Qed.

Lemma clean_text_is_normalized charref text :
  normalized (clean_text charref text) = true.
Proof.
  unfold clean_text. destruct (is_empty text); [reflexivity|].
  apply strip_normalized, collapse_collapsed.
Qed.

Lemma unescape_no_amp charref s : no_amp s = true -> unescape charref s = s.
Proof.
  unfold unescape. induction s as [|c r IH]; [reflexivity|]. simpl.
  intros H. apply andb_true_iff in H. destruct H as [Hc Hr].
  apply negb_true_iff in Hc. now rewrite Hc, IH.
Qed.

Lemma all_space_no_amp s : all_space s = true -> no_amp s = true.
Proof.
  induction s as [|c r IH]; [reflexivity|]. simpl. intros H.
  apply andb_true_iff in H. destruct H as [Hc Hr].
  now rewrite (space_not_amp _ Hc), IH.
Qed.

Lemma collapse_all_space s : forall b,
  all_space s = true -> all_space (collapse_ws b s) = true.
Proof.
  induction s as [|c r IH]; intros b; [reflexivity|]. simpl. intros H.
  apply andb_true_iff in H. destruct H as [Hc Hr]. rewrite Hc.
  destruct b; [now apply IH|]. simpl. now apply IH.
Qed.

Lemma strip_all_space s : all_space s = true -> strip s = "".
Proof.
  unfold strip. induction s as [|c r IH]; [reflexivity|]. simpl. intros H.
  apply andb_true_iff in H. destruct H as [Hc Hr]. rewrite Hc. now apply IH.
Qed.

(** X2: a text that is empty or holds only whitespace is cleaned to the
    empty string. *)
Theorem clean_text_blank charref text :
  all_space text = true -> clean_text charref text = "".
Proof.
  intros H. unfold clean_text. destruct (is_empty text); [reflexivity|].
  rewrite (unescape_no_amp charref text (all_space_no_amp _ H)).
  apply strip_all_space, collapse_all_space, H.
Qed.

Lemma clean_text_blank_witness :
  clean_text charref_basic (String " " (String "010" (String "009" " "))) = "".
Proof.
  apply (clean_text_blank charref_basic). reflexivity.
Defined.

Lemma spaced_tail c r : spaced (String c r) = true -> spaced r = true.
Proof. simpl. intros H. now apply andb_true_iff in H. Qed.

Lemma collapse_spaced s :
  spaced s = true ->
  collapse_ws false s = s /\ (head_not_space s = true -> collapse_ws true s = s).
Proof.
  induction s as [|c r IH]; [now split|]. intros H.
  destruct (IH (spaced_tail _ _ H)) as [IH1 IH2].
  simpl in H. apply andb_true_iff in H. destruct H as [Hc _].
  simpl. destruct (isspace c) eqn:Ec.
  - apply andb_true_iff in Hc. destruct Hc as [Hsp Hnext].
    apply Ascii.eqb_eq in Hsp. subst c. split; [|discriminate].
    rewrite IH2; [reflexivity|]. destruct r; [discriminate Hnext | exact Hnext].
  - rewrite IH1. split; reflexivity.
Qed.

Lemma rstrip_of_spaced s : spaced s = true -> rstrip s = s.
Proof.
  induction s as [|c r IH]; [reflexivity|]. intros H.
  pose proof (IH (spaced_tail _ _ H)) as Hr.
  simpl in H. apply andb_true_iff in H. destruct H as [Hc _].
  simpl. rewrite Hr. destruct (isspace c); [|reflexivity].
  apply andb_true_iff in Hc. destruct Hc as [_ Hnext].
  destruct r; [discriminate Hnext | reflexivity].
Qed.

Lemma lstrip_of_head s : head_not_space s = true -> lstrip s = s.
Proof.
  destruct s as [|c r]; [reflexivity|]. simpl. intros H.
  apply negb_true_iff in H. now rewrite H.
Qed.

(** X1: whatever the text and the decoder of character references,
    [clean_text] answers with a normalized text: no whitespace at either
    end, and every whitespace character in it is a single space between
    two characters that are not whitespace. *)
Theorem clean_text_normalized charref text :
  match clean_text charref text with
  | String c _ => isspace c = false
  | EmptyString => True
  end /\
  spaced (clean_text charref text) = true /\
  rstrip (clean_text charref text) = clean_text charref text /\
  lstrip (clean_text charref text) = clean_text charref text.
Proof.
  pose proof (clean_text_is_normalized charref text) as H.
  unfold normalized in H. apply andb_true_iff in H. destruct H as [Hh Hs].
  split; [|split; [exact Hs|split]].
  - destruct (clean_text charref text); [exact I | now apply negb_true_iff].
  - now apply rstrip_of_spaced.
  - now apply lstrip_of_head.
Qed.

(** A normalized text without an ampersand is a fixed point of [clean_text]. *)
Lemma clean_text_of_normalized charref s :
  normalized s = true -> no_amp s = true -> clean_text charref s = s.
Proof.
  unfold normalized. intros H Ha. apply andb_true_iff in H. destruct H as [Hh Hs].
  unfold clean_text. destruct s as [|c r]; [reflexivity|]. cbn [is_empty].
  rewrite (unescape_no_amp charref _ Ha).
  destruct (collapse_spaced _ Hs) as [-> _].
  unfold strip. now rewrite (lstrip_of_head (String c r) Hh), (rstrip_of_spaced _ Hs).
Qed.

(** X3: cleaning twice is cleaning once, when the cleaned text holds no
    ampersand (one left by the decoder would start a reference again). *)
Theorem clean_text_idempotent charref text :
  no_amp (clean_text charref text) = true ->
  clean_text charref (clean_text charref text) = clean_text charref text.
Proof.
  intros H. apply clean_text_of_normalized; [|exact H].
  apply clean_text_is_normalized.
Qed.

Lemma clean_text_idempotent_witness :
  clean_text charref_basic "1. What is TCP?" = "1. What is TCP?" /\
  clean_text charref_basic (clean_text charref_basic "  1.   What is
 TCP?  ") = clean_text charref_basic "  1.   What is
 TCP?  ".
Proof.
  split; [reflexivity|].
  apply (clean_text_idempotent charref_basic). reflexivity.
Defined.

(** *** What [clean_text] keeps *)

Lemma letters_collapse s : forall b, letters (collapse_ws b s) = letters s.
Proof.
  induction s as [|c r IH]; intros b; [reflexivity|]. simpl.
  destruct (isspace c) eqn:Hc.
  - destruct b; [apply IH|]. simpl. apply IH.
  - simpl. now rewrite Hc, IH.
Qed.

Lemma letters_lstrip s : letters (lstrip s) = letters s.
Proof.
  induction s as [|c r IH]; [reflexivity|]. simpl.
  destruct (isspace c) eqn:Hc; [exact IH|]. simpl. now rewrite Hc.
Qed.

Lemma letters_rstrip s : letters (rstrip s) = letters s.
Proof.
  induction s as [|c r IH]; [reflexivity|]. simpl.
  destruct (isspace c) eqn:Hc; simpl.
  - destruct (rstrip r) eqn:Er; simpl in *; [exact IH|]. now rewrite Hc.
  - now rewrite Hc, IH.
Qed.

(** X19: on a text without an ampersand [clean_text] changes whitespace
    only: the characters that are not whitespace are the same, in the
    same order. *)
Theorem clean_text_keeps_letters charref text :
  no_amp text = true -> letters (clean_text charref text) = letters text.
Proof.
  intros H. unfold clean_text. destruct (is_empty text) eqn:E.
  - destruct text; [reflexivity | discriminate E].
  - unfold strip. rewrite letters_rstrip, letters_lstrip, letters_collapse.
    now rewrite (unescape_no_amp charref text H).
Qed.

Lemma clean_text_keeps_letters_witness :
  letters (clean_text charref_basic "  1.  What is
 TCP? ") = "1.WhatisTCP?"%string.
Proof.
  apply (clean_text_keeps_letters charref_basic "  1.  What is
 TCP? ").
  reflexivity.
Defined.

(** *** [in] on strings *)

Lemma prefix_iff a : forall h, prefix a h = true <-> exists b, h = (a ++ b)%string.
Proof.
  induction a as [|c r IH]; intros h.
  - split; [intros _; now exists h | intros _; destruct h; reflexivity].
  - destruct h as [|d h']; simpl.
    + split; [discriminate | intros [b Hb]; discriminate Hb].
    + destruct (ascii_dec c d) as [->|Hne].
      * rewrite IH. split; intros [b Hb]; exists b; [now rewrite Hb | now injection Hb].
      * split; [discriminate | intros [b Hb]; injection Hb as Hc _; symmetry in Hc; contradiction].
Qed.

Lemma contains_iff needle : forall hay,
  contains needle hay = true <->
  exists a b, hay = (a ++ needle ++ b)%string.
Proof.
  induction hay as [|c r IH].
  - destruct needle as [|d n]; simpl.
    + split; [intros _; now exists ""%string, ""%string | reflexivity].
    + split; [discriminate | intros (a & b & H); destruct a; discriminate H].
  - cbn [contains]. rewrite orb_true_iff, prefix_iff, IH. split.
    + intros [[b Hb] | (a & b & H)]; [now exists ""%string, b|].
      exists (String c a), b. simpl. now rewrite H.
    + intros (a & b & H). destruct a as [|d a'].
      * left. now exists b.
      * right. simpl in H. injection H as _ H. now exists a', b.
Qed.

(** X20: [any(keyword in text for keyword in keywords)] holds exactly
    when one of the keywords occurs in the text as a run of consecutive
    characters. *)
Theorem any_keyword_iff keywords text :
  any_keyword keywords text = true <->
  exists keyword a b, In keyword keywords /\ text = (a ++ keyword ++ b)%string.
Proof.
  unfold any_keyword. rewrite existsb_exists. split.
  - intros (k & Hk & Hc). apply contains_iff in Hc. destruct Hc as (a & b & H).
    now exists k, a, b.
  - intros (k & a & b & Hk & H). exists k. split; [exact Hk|].
    apply contains_iff. now exists a, b.
Qed.

End Normalization.

(** ** The two ordinal patterns as sets of texts *)

Module Ordinals.
Import Text TextFacts.

Lemma skip_digits_split s :
  exists ds,
    all_digits ds = true /\
    s = (ds ++ snd (skip_digits s))%string /\
    fst (skip_digits s) = String.length ds.
Proof.
  induction s as [|c r IH].
  - exists ""%string. repeat split.
  - simpl. destruct (isdigit c) eqn:Hc.
    + destruct IH as (ds & Hd & Hs & Hn). destruct (skip_digits r) as [n t].
      simpl in *. exists (String c ds). simpl. rewrite Hc, Hd, Hn.
      repeat split. now rewrite <- Hs.
    + exists ""%string. repeat split.
Qed.

Lemma skip_digits_app ds t :
  all_digits ds = true ->
  starts_with_digit t = false ->
  skip_digits (ds ++ t) = (String.length ds, t).
Proof.
  intros Hd Ht. induction ds as [|c r IH]; simpl.
  - destruct t as [|d t']; [reflexivity|]. simpl in *. now rewrite Ht.
  - simpl in Hd. apply andb_true_iff in Hd. destruct Hd as [Hc Hr].
    now rewrite Hc, (IH Hr).
Qed.

(** [after_ordinal] finds what follows a match of [^\d+\.]. *)
Lemma after_ordinal_spec s t :
  after_ordinal s = Some t <->
  exists ds, ds <> ""%string /\ all_digits ds = true /\ s = (ds ++ String "." t)%string.
Proof.
  split.
  - unfold after_ordinal. destruct (skip_digits_split s) as (ds & Hd & Hs & Hn).
    destruct (skip_digits s) as [n u]. simpl in Hs, Hn.
    destruct n as [|n]; [discriminate|]. destruct u as [|c u]; [discriminate|].
    destruct c as [[] [] [] [] [] [] [] []]; try discriminate.
    intros [= <-]. exists ds. split; [|split; [exact Hd | exact Hs]].
    intros ->. discriminate Hn.
  - intros (ds & Hne & Hd & ->). unfold after_ordinal.
    rewrite (skip_digits_app ds _ Hd) by reflexivity.
    destruct ds; [contradiction | reflexivity].
Qed.

(** X4: [question_pattern] accepts the texts made of one or more digits,
    a dot, a whitespace character and anything after it; the bare
    ordinal pattern accepts the texts made of one or more digits, a dot
    and nothing but whitespace. *)
Theorem ordinal_patterns s :
  (question_pattern s = true <->
   exists ds c r,
     ds <> ""%string /\ all_digits ds = true /\ isspace c = true /\
     s = (ds ++ String "." (String c r))%string) /\
  (bare_ordinal s = true <->
   exists ds t,
     ds <> ""%string /\ all_digits ds = true /\ all_space t = true /\
     s = (ds ++ String "." t)%string).
Proof.
  split; split.
  - unfold question_pattern. destruct (after_ordinal s) as [[|c r]|] eqn:E; try discriminate.
    intros Hc. apply after_ordinal_spec in E. destruct E as (ds & Hne & Hd & Hs).
    now exists ds, c, r.
  - intros (ds & c & r & Hne & Hd & Hc & Hs). unfold question_pattern.
    assert (E : after_ordinal s = Some (String c r)) by (apply after_ordinal_spec; eauto).
    now rewrite E.
  - unfold bare_ordinal. destruct (after_ordinal s) as [t|] eqn:E; [|discriminate].
    intros Ht. apply after_ordinal_spec in E. destruct E as (ds & Hne & Hd & Hs).
    now exists ds, t.
  - intros (ds & t & Hne & Hd & Ht & Hs). unfold bare_ordinal.
    assert (E : after_ordinal s = Some t) by (apply after_ordinal_spec; eauto).
    now rewrite E.
Qed.

End Ordinals.

(** ** The records of the output *)

Module Records.
Import Text Soup Parser TextFacts SoupFacts ParserFacts Normalization.

Lemma fold_loop_flat_map charref soup l : forall acc,
  fold_left (loop_body charref soup) l acc = acc ++ flat_map (turn charref soup) l.
Proof.
  induction l as [|i l IH]; intros acc; simpl; [now rewrite app_nil_r|].
  rewrite IH. unfold loop_body, turn.
  destruct (process charref soup i); [now rewrite <- app_assoc | reflexivity].
Qed.

Lemma flat_map_turn_length charref soup l :
  List.length (flat_map (turn charref soup) l) <= List.length l.
Proof.
  induction l as [|i l IH]; simpl; [lia|]. rewrite length_app.
  unfold turn at 1. destruct (process charref soup i); simpl; lia.
Qed.

(** X5: the output is made of the records of the anchors, at most one
    for each, in the order of the anchor list; so there are no more
    records than anchors. *)
Theorem records_follow_anchors charref soup :
  extract_quiz_data charref soup =
    flat_map
      (fun i => match process charref soup i with Some d => [d] | None => [] end)
      (seq 0 (List.length (all_elements soup))) /\
  List.length (extract_quiz_data charref soup) <= List.length (all_elements soup).
Proof.
  assert (E : extract_quiz_data charref soup =
              flat_map (turn charref soup) (seq 0 (List.length (all_elements soup)))).
  { unfold extract_quiz_data. rewrite run_fold. simpl. now rewrite fold_loop_flat_map. }
  split; [exact E|]. rewrite E.
  etransitivity; [apply flat_map_turn_length|]. now rewrite length_seq.
Qed.

(** *** What the scan found, from the list it matched *)

Lemma scan_from_choices charref soup element question_text :
  choices (scan_from charref soup element question_text) =
  match matched_list (find_next_siblings soup element) with
  | Some ul =>
      map (choice_text_of charref) (filter (has_choice_text charref) (find_all ["li"] ul))
  | None => []
  end.
Proof.
  unfold scan_from. rewrite scan_spec.
  destruct (matched_list (find_next_siblings soup element)); [|reflexivity].
  simpl. now rewrite collect_choices_spec.
Qed.

Lemma scan_from_correct charref soup element question_text :
  correct_answers (scan_from charref soup element question_text) =
  match matched_list (find_next_siblings soup element) with
  | Some ul =>
      map (choice_text_of charref)
        (filter (fun li => has_choice_text charref li && marked li) (find_all ["li"] ul))
  | None => []
  end.
Proof.
  unfold scan_from. rewrite scan_spec.
  destruct (matched_list (find_next_siblings soup element)); [|reflexivity].
  simpl. now rewrite collect_choices_spec.
Qed.

Lemma scan_from_correct_incl charref soup element question_text :
  incl (correct_answers (scan_from charref soup element question_text))
       (choices (scan_from charref soup element question_text)).
Proof.
  rewrite scan_from_choices, scan_from_correct.
  destruct (matched_list (find_next_siblings soup element)) as [ul|]; [|intros x []].
  intros x Hx. apply in_map_iff in Hx. destruct Hx as (li & <- & Hli).
  apply filter_In in Hli. destruct Hli as [Hin Hb].
  apply andb_true_iff in Hb. destruct Hb as [Hh _].
  apply in_map, filter_In. now split.
Qed.

Lemma scan_from_choices_clean charref soup element question_text :
  Forall (fun c => c <> ""%string /\ normalized c = true)
    (choices (scan_from charref soup element question_text)).
Proof.
  rewrite scan_from_choices.
  destruct (matched_list (find_next_siblings soup element)) as [ul|]; [|constructor].
  apply Forall_forall. intros x Hx. apply in_map_iff in Hx. destruct Hx as (li & <- & Hli).
  apply filter_In in Hli. destruct Hli as [_ Hh]. split.
  - unfold has_choice_text in Hh. intros E. rewrite E in Hh. discriminate Hh.
  - apply clean_text_is_normalized.
Qed.

(** A record and the anchor it comes from. *)
Lemma emitted_at_anchor charref soup d :
  In d (extract_quiz_data charref soup) ->
  exists i element tag,
    anchor soup i element tag /\
    classify (question_text_of charref tag)
      (scan_from charref soup element (question_text_of charref tag))
      (add_pre (scan_from charref soup element (question_text_of charref tag))
         (assemble charref soup element (question_text_of charref tag)
            (scan_from charref soup element (question_text_of charref tag))
            (match find_img soup i element with
             | Some src => set_img src (set_question (question_text_of charref tag) empty_data)
             | None => set_question (question_text_of charref tag) empty_data
             end))) = Some d.
Proof.
  intros Hin. apply extract_In in Hin. destruct Hin as [i E].
  destruct (process_has_anchor charref soup i d E) as (element & tag & Ha).
  exists i, element, tag. split; [exact Ha|].
  rewrite (process_anchor charref soup i element tag Ha) in E. exact E.
Qed.

(** X6: in every record the answer is taken from the choices or is one
    of the two sentinels: a string answer is a choice of the record,
    "Unknown" or "See image for the answer"; a list answer has at least
    two entries and each of them is a choice of the record. *)
Theorem answer_among_choices charref soup d :
  In d (extract_quiz_data charref soup) ->
  exists cs a,
    q_choices d = Some cs /\
    q_answer d = Some a /\
    match a with
    | VStr s => In s cs \/ s = "Unknown"%string \/ s = "See image for the answer"%string
    | VList l => 2 <= List.length l /\ incl l cs
    end.
Proof.
  intros Hin. destruct (emitted_at_anchor charref soup d Hin) as (i & element & tag & _ & E).
  pose proof (scan_from_correct_incl charref soup element (question_text_of charref tag)) as Hincl.
  unfold classify in E.
  destruct (any_keyword special_keywords (lower (question_text_of charref tag))).
  { injection E as <-. exists [], (VStr see_image). simpl. auto. }
  destruct (choices (scan_from charref soup element (question_text_of charref tag)))
    as [|c cs] eqn:Ec; [discriminate|].
  destruct (correct_answers (scan_from charref soup element (question_text_of charref tag)))
    as [|a [|b r]] eqn:Eca.
  - destruct (any_keyword missed_keywords (lower (question_text_of charref tag)));
      injection E as <-; eexists; eexists; simpl; (split; [reflexivity|]);
      (split; [reflexivity|]); [right; right; reflexivity | right; left; reflexivity].
  - injection E as <-. eexists; eexists; simpl. split; [reflexivity|].
    split; [reflexivity|]. left. apply Hincl. now left.
  - injection E as <-. eexists; eexists; simpl. split; [reflexivity|].
    split; [reflexivity|]. split; [simpl; lia | exact Hincl].
Qed.

Lemma answer_among_choices_witness :
  exists cs a,
    q_choices
      (QuestionData (Some "1. What color is the sky?") None None None
         (Some ["Blue"; "Green"; "Red"]) (Some (VStr "Blue"))) = Some cs /\
    q_answer
      (QuestionData (Some "1. What color is the sky?") None None None
         (Some ["Blue"; "Green"; "Red"]) (Some (VStr "Blue"))) = Some a /\
    match a with
    | VStr s => In s cs \/ s = "Unknown"%string \/ s = "See image for the answer"%string
    | VList l => 2 <= List.length l /\ incl l cs
    end.
Proof.
  apply (answer_among_choices charref_basic Documents.doc_sky).
  left. reflexivity.
Defined.

(** X7: every choice of every record is a normalized text and is not
    empty. *)
Theorem choices_are_clean charref soup d cs :
  In d (extract_quiz_data charref soup) ->
  q_choices d = Some cs ->
  Forall (fun c => c <> ""%string /\ normalized c = true) cs.
Proof.
  intros Hin Hcs. destruct (emitted_at_anchor charref soup d Hin) as (i & element & tag & _ & E).
  pose proof (scan_from_choices_clean charref soup element (question_text_of charref tag)) as Hc.
  unfold classify in E.
  destruct (any_keyword special_keywords (lower (question_text_of charref tag))).
  { injection E as <-. simpl in Hcs. injection Hcs as <-. constructor. }
  destruct (choices (scan_from charref soup element (question_text_of charref tag)))
    as [|c cs'] eqn:Ec; [discriminate|].
  assert (Hd : q_choices d = Some (c :: cs')).
  { destruct (correct_answers (scan_from charref soup element (question_text_of charref tag)))
      as [|a [|b r]];
      [destruct (any_keyword missed_keywords (lower (question_text_of charref tag)))|..];
      injection E as <-; reflexivity. }
  rewrite Hd in Hcs. injection Hcs as <-. exact Hc.
Qed.

Lemma choices_are_clean_witness :
  Forall (fun c => c <> ""%string /\ normalized c = true) ["Blue"; "Green"; "Red"].
Proof.
  apply (choices_are_clean charref_basic Documents.doc_sky
           (QuestionData (Some "1. What color is the sky?") None None None
              (Some ["Blue"; "Green"; "Red"]) (Some (VStr "Blue")))).
  - left. reflexivity.
  - reflexivity.
Defined.

(** *** The record before and after the classification *)

Lemma assemble_fields charref soup element question_text st d :
  q_img (assemble charref soup element question_text st d) = q_img d /\
  q_pre (assemble charref soup element question_text st d) = q_pre d /\
  q_type (assemble charref soup element question_text st d) = q_type d /\
  q_choices (assemble charref soup element question_text st d) = q_choices d /\
  q_answer (assemble charref soup element question_text st d) = q_answer d.
Proof.
  unfold assemble.
  destruct (1 <? List.length (question_parts st))%nat; [now repeat split|].
  destruct (bare_ordinal question_text); [|now repeat split].
  destruct (has_name emphasis (elt element)); [|now repeat split].
  destruct (next_sibling soup element) as [next_elem|]; [|now repeat split].
  destruct (has_name emphasis (elt next_elem)); now repeat split.
Qed.

Lemma add_pre_fields st d :
  q_img (add_pre st d) = q_img d /\
  q_type (add_pre st d) = q_type d /\
  q_choices (add_pre st d) = q_choices d /\
  q_answer (add_pre st d) = q_answer d /\
  (q_pre d = None -> q_pre (add_pre st d) = pre_of st).
Proof.
  unfold add_pre, pre_of. destruct (pre_content st) as [p|]; [|now repeat split].
  destruct (is_empty p); now repeat split.
Qed.

Lemma draft_fields charref soup i element tag :
  q_img (draft charref soup i element tag) = find_img soup i element /\
  q_pre (draft charref soup i element tag) =
    pre_of (scan_from charref soup element (question_text_of charref tag)) /\
  q_type (draft charref soup i element tag) = None.
Proof.
  unfold draft. cbv zeta.
  set (st := scan_from charref soup element (question_text_of charref tag)).
  set (d0 := match find_img soup i element with
             | Some src => set_img src (set_question (question_text_of charref tag) empty_data)
             | None => set_question (question_text_of charref tag) empty_data
             end).
  destruct (add_pre_fields st
              (assemble charref soup element (question_text_of charref tag) st d0))
    as (Hi & Ht & _ & _ & Hp).
  destruct (assemble_fields charref soup element (question_text_of charref tag) st d0)
    as (Hi' & Hp' & Ht' & _ & _).
  rewrite Hi, Ht, Hi', Ht', Hp.
  - subst d0. destruct (find_img soup i element); now repeat split.
  - rewrite Hp'. subst d0. destruct (find_img soup i element); reflexivity.
Qed.

Lemma process_draft charref soup i element tag :
  anchor soup i element tag ->
  process charref soup i =
  classify (question_text_of charref tag)
    (scan_from charref soup element (question_text_of charref tag))
    (draft charref soup i element tag).
Proof. intros Ha. now rewrite (process_anchor charref soup i element tag Ha). Qed.

Lemma classify_keeps question_text st d d' :
  classify question_text st d = Some d' ->
  q_question d' = q_question d /\ q_img d' = q_img d /\ q_pre d' = q_pre d.
Proof.
  unfold classify.
  destruct (any_keyword special_keywords (lower question_text)).
  { intros [= <-]. now repeat split. }
  destruct (choices st) as [|c cs]; [discriminate|].
  destruct (correct_answers st) as [|a [|b r]];
    [destruct (any_keyword missed_keywords (lower question_text))|..];
    intros [= <-]; now repeat split.
Qed.

(** X8: the type of a record is absent or "special"; a special record
    has the image sentinel as its answer; and the choices of a record
    are empty exactly when its question text holds one of the primary
    special phrases. *)
Theorem record_type charref soup i element tag d :
  anchor soup i element tag ->
  process charref soup i = Some d ->
  (q_type d = None \/ q_type d = Some "special"%string) /\
  (q_type d = Some "special"%string ->
   q_answer d = Some (VStr "See image for the answer")) /\
  (q_choices d = Some [] <->
   any_keyword special_keywords (lower (question_text_of charref tag)) = true).
Proof.
  intros Ha E. rewrite (process_draft charref soup i element tag Ha) in E.
  destruct (draft_fields charref soup i element tag) as (_ & _ & Ht).
  unfold classify in E.
  destruct (any_keyword special_keywords (lower (question_text_of charref tag))).
  { injection E as <-. simpl. repeat split; auto. }
  destruct (choices (scan_from charref soup element (question_text_of charref tag)))
    as [|c cs]; [discriminate|].
  destruct (correct_answers (scan_from charref soup element (question_text_of charref tag)))
    as [|a [|b r]];
    [destruct (any_keyword missed_keywords (lower (question_text_of charref tag)))|..];
    injection E as <-; simpl; rewrite ?Ht; repeat split; auto; try discriminate.
Qed.

Lemma record_type_witness :
  (q_type
     (QuestionData (Some "1. Put the steps in the right order") None None (Some "special")
        (Some ["SYN"; "SYN-ACK"; "ACK"]) (Some (VStr "See image for the answer"))) = None \/
   q_type
     (QuestionData (Some "1. Put the steps in the right order") None None (Some "special")
        (Some ["SYN"; "SYN-ACK"; "ACK"]) (Some (VStr "See image for the answer")))
   = Some "special"%string) /\
  (Some "special"%string = Some "special"%string ->
   Some (VStr "See image for the answer") = Some (VStr "See image for the answer")) /\
  (Some ["SYN"; "SYN-ACK"; "ACK"]%string = Some [] <->
   any_keyword special_keywords (lower "1. Put the steps in the right order") = true).
Proof.
  apply (record_type charref_basic Documents.doc_order 0
           (Element [0] (Tag "p" [] [Documents.text_tag "strong" "1. Put the steps in the right order"]))
           (Element [0; 0] (Documents.text_tag "strong" "1. Put the steps in the right order"))
           (QuestionData (Some "1. Put the steps in the right order") None None (Some "special")
              (Some ["SYN"; "SYN-ACK"; "ACK"]) (Some (VStr "See image for the answer")))).
  - repeat split; reflexivity.
  - reflexivity.
Defined.




(** *** The question, the image and the [pre] block of a record *)

Lemma prefix_append a b : prefix a (a ++ b)%string = true.
Proof.
  induction a as [|c r IH]; [destruct b; reflexivity|]. simpl.
  destruct (ascii_dec c c); [exact IH | contradiction].
Qed.

Lemma prefix_self a : prefix a a = true.
Proof.
  induction a as [|c r IH]; [reflexivity|]. simpl.
  destruct (ascii_dec c c); [exact IH | contradiction].
Qed.

Lemma prefix_concat sep a l : prefix a (String.concat sep (a :: l)) = true.
Proof. destruct l; simpl; [apply prefix_self | apply prefix_append]. Qed.

Lemma normalized_rstrip s : normalized s = true -> rstrip s = s.
Proof.
  unfold normalized. intros H. apply andb_true_iff in H. destruct H as [_ H].
  now apply rstrip_of_spaced.
Qed.

Lemma combined_part_clean charref raw :
  combined_part (clean_text charref raw) = clean_text charref raw.
Proof.
  unfold combined_part. destruct (bare_ordinal (clean_text charref raw)); [|reflexivity].
  apply normalized_rstrip, clean_text_is_normalized.
Qed.

Lemma assemble_question_prefix charref soup element raw d0 :
  q_question d0 = Some (clean_text charref raw) ->
  exists q,
    q_question
      (assemble charref soup element (clean_text charref raw)
         (scan_from charref soup element (clean_text charref raw)) d0) = Some q /\
    prefix (clean_text charref raw) q = true.
Proof.
  intros Hq0. unfold assemble.
  destruct (scan_parts charref (find_next_siblings soup element)
              (ScanState [] [] [clean_text charref raw] None)) as [more Em].
  unfold scan_from. rewrite Em. simpl question_parts.
  destruct (1 <? List.length ([clean_text charref raw] ++ more))%nat.
  - eexists. split; [reflexivity|]. simpl map.
    rewrite combined_part_clean. apply prefix_concat.
  - assert (Hself : exists q, q_question d0 = Some q /\
                              prefix (clean_text charref raw) q = true)
      by (eexists; split; [exact Hq0 | apply prefix_self]).
    destruct (bare_ordinal (clean_text charref raw)); [|exact Hself].
    destruct (has_name emphasis (elt element)); [|exact Hself].
    destruct (next_sibling soup element) as [next_elem|]; [|exact Hself].
    destruct (has_name emphasis (elt next_elem)); [|exact Hself].
    eexists. split; [reflexivity|].
    rewrite (normalized_rstrip _ (clean_text_is_normalized charref raw)).
    apply prefix_append.
Qed.

(** X10: the question of a record begins with the normalized text of
    its question tag; what the extractor adds (the continuation parts,
    or the next emphasis sibling of a bare ordinal) comes after it. *)
Theorem question_extends_tag_text charref soup i element tag d :
  anchor soup i element tag ->
  process charref soup i = Some d ->
  exists q,
    q_question d = Some q /\
    prefix (clean_text charref (get_text (elt tag))) q = true.
Proof.
  intros Ha E. rewrite (process_anchor charref soup i element tag Ha) in E. cbv zeta in E.
  apply classify_keeps in E. destruct E as (Eq & _ & _).
  rewrite add_pre_question in Eq. unfold question_text_of in Eq.
  destruct (assemble_question_prefix charref soup element (get_text (elt tag))
              (match find_img soup i element with
               | Some src =>
                   set_img src (set_question (clean_text charref (get_text (elt tag))) empty_data)
               | None => set_question (clean_text charref (get_text (elt tag))) empty_data
               end)) as (q & Hq & Hp).
  { destruct (find_img soup i element); reflexivity. }
  exists q. split; [now rewrite Eq | exact Hp].
Qed.

Lemma question_extends_tag_text_witness :
  exists q,
    q_question
      (QuestionData (Some "3. What does this print? (choose one)") None
         (Some "for i in range(3):
print(i)") None
         (Some ["0 1 2"; "0 1 2 & done"]) (Some (VStr "0 1 2 & done"))) = Some q /\
    prefix (clean_text charref_basic
              (get_text (Documents.text_tag "b" "3. What does  this print?"))) q = true.
Proof.
  apply (question_extends_tag_text charref_basic Documents.doc_pre 0
           (Element [0] (Tag "p" [] [Documents.text_tag "b" "3. What does  this print?"]))
           (Element [0; 0] (Documents.text_tag "b" "3. What does  this print?"))).
  - repeat split; reflexivity.
  - reflexivity.
Defined.

Lemma img_src_truthy e v : img_src e = Some v -> truthy v = true.
Proof.
  unfold img_src. destruct (find ["img"] e) as [t|]; [|discriminate].
  destruct (get (attrs_of (elt t)) "src") as [src|]; [|discriminate].
  destruct (truthy src) eqn:Ht; [|discriminate]. now intros [= <-].
Qed.

Lemma lookahead_img_In l v :
  lookahead_img l = Some v ->
  exists e, In e l /\ has_name ["p"] (elt e) = true /\ img_src e = Some v.
Proof.
  induction l as [|e l IH]; simpl; [discriminate|].
  destruct (has_name ["p"] (elt e)) eqn:Hp.
  - destruct (img_src e) as [src|] eqn:Hs.
    + intros [= <-]. exists e. auto.
    + intros H. destruct (IH H) as (e' & Hin & H'). exists e'. auto.
  - intros H. destruct (IH H) as (e' & Hin & H'). exists e'. auto.
Qed.

(** X11: the image of a record is the source, not empty, of the first
    image of a paragraph among the anchors: the anchor itself, when it
    is a paragraph whose first image has a source, and else one of the
    two anchors after it in the anchor list. *)
Theorem image_of_record charref soup i element tag d :
  anchor soup i element tag ->
  process charref soup i = Some d ->
  (forall v, has_name ["p"] (elt element) = true -> img_src element = Some v ->
             q_img d = Some v) /\
  (forall v, q_img d = Some v ->
     truthy v = true /\
     exists j e,
       i <= j <= i + 2 /\
       nth_error (all_elements soup) j = Some e /\
       has_name ["p"] (elt e) = true /\
       img_src e = Some v).
Proof.
  intros Ha E. rewrite (process_draft charref soup i element tag Ha) in E.
  apply classify_keeps in E. destruct E as (_ & Ei & _).
  destruct (draft_fields charref soup i element tag) as (Hi & _ & _).
  rewrite Hi in Ei. rewrite Ei. clear Ei Hi. unfold find_img. split.
  - intros v Hp Hs. now rewrite Hp, Hs.
  - intros v Hv. destruct (has_name ["p"] (elt element)) eqn:Hp.
    + destruct (img_src element) as [src|] eqn:Hs.
      * injection Hv as <-. split; [eapply img_src_truthy; exact Hs|].
        exists i, element. destruct Ha as (Hn & _). repeat split; auto; lia.
      * apply lookahead_img_In in Hv. destruct Hv as (e & Hin & Hpe & Hse).
        split; [eapply img_src_truthy; exact Hse|].
        apply In_nth_error in Hin. destruct Hin as [k Hk].
        rewrite nth_error_firstn in Hk.
        destruct (k <? 2)%nat eqn:Hlt; [|discriminate].
        rewrite nth_error_skipn in Hk. apply Nat.ltb_lt in Hlt.
        exists (S i + k), e. repeat split; auto; lia.
    + apply lookahead_img_In in Hv. destruct Hv as (e & Hin & Hpe & Hse).
      split; [eapply img_src_truthy; exact Hse|].
      apply In_nth_error in Hin. destruct Hin as [k Hk].
      rewrite nth_error_firstn in Hk.
      destruct (k <? 2)%nat eqn:Hlt; [|discriminate].
      rewrite nth_error_skipn in Hk. apply Nat.ltb_lt in Hlt.
      exists (S i + k), e. repeat split; auto; lia.
Qed.

Lemma image_of_record_witness :
  (forall v,
     has_name ["p"] (Tag "p" [] [Documents.text_tag "strong" "2. Match the following"]) = true ->
     img_src (Element [0] (Tag "p" [] [Documents.text_tag "strong" "2. Match the following"]))
       = Some v ->
     Some (VStr "exhibit.png") = Some v) /\
  (forall v, Some (VStr "exhibit.png") = Some v ->
     truthy v = true /\
     exists j e,
       0 <= j <= 0 + 2 /\
       nth_error (all_elements Documents.doc_exhibit) j = Some e /\
       has_name ["p"] (elt e) = true /\
       img_src e = Some v).
Proof.
  apply (image_of_record charref_basic Documents.doc_exhibit 0
           (Element [0] (Tag "p" [] [Documents.text_tag "strong" "2. Match the following"]))
           (Element [0; 0] (Documents.text_tag "strong" "2. Match the following"))
           (QuestionData (Some "2. Match the following") (Some (VStr "exhibit.png")) None
              (Some "special") (Some []) (Some (VStr "See image for the answer")))).
  - repeat split; reflexivity.
  - reflexivity.
Defined.

Lemma scan_pre_origin charref siblings : forall st p,
  pre_content (scan charref siblings st) = Some p ->
  is_empty p = false ->
  pre_content st = Some p \/
  exists cur,
    In cur siblings /\ has_name ["pre"] (elt cur) = true /\
    p = pre_text (get_text (elt cur)).
Proof.
  induction siblings as [|cur rest IH]; intros st p; simpl; [auto|].
  destruct (has_name ["ul"] (elt cur)).
  { destruct (collect_choices charref (find_all ["li"] cur) (choices st) (correct_answers st)).
    simpl. auto. }
  assert (Hrest : forall st',
            pre_content st' = pre_content st ->
            pre_content (scan charref rest st') = Some p -> is_empty p = false ->
            pre_content st = Some p \/
            exists cur0, (cur = cur0 \/ In cur0 rest) /\
                         has_name ["pre"] (elt cur0) = true /\
                         p = pre_text (get_text (elt cur0))).
  { intros st' E H Hp. destruct (IH st' p H Hp) as [H1 | (c & Hin & H2)].
    - left. now rewrite <- E.
    - right. exists c. auto. }
  destruct (has_name ["p"] (elt cur)).
  { destruct (strong_or_b cur) as [tag|]; [|now apply Hrest].
    destruct (question_pattern (strip (get_text (elt tag)))); [auto|].
    now apply Hrest. }
  destruct (has_name ["pre"] (elt cur)) eqn:Hpre; [|now apply Hrest].
  destruct (falsy (pre_content st)) eqn:Hf; [|now apply Hrest].
  intros H Hp. destruct (IH _ p H Hp) as [H1 | (c & Hin & H2)].
  - simpl in H1. injection H1 as <-. right. exists cur. auto.
  - right. exists c. auto.
Qed.

(** X12: the [pre] block of a record is not empty and is the text, line
    by line, of a [pre] tag among the sibling tags after the anchor. *)
Theorem pre_of_record charref soup i element tag d p :
  anchor soup i element tag ->
  process charref soup i = Some d ->
  q_pre d = Some p ->
  p <> ""%string /\
  exists cur,
    In cur (find_next_siblings soup element) /\
    has_name ["pre"] (elt cur) = true /\
    p = pre_text (get_text (elt cur)).
Proof.
  intros Ha E Hp. rewrite (process_draft charref soup i element tag Ha) in E.
  apply classify_keeps in E. destruct E as (_ & _ & Epre).
  destruct (draft_fields charref soup i element tag) as (_ & Hd & _).
  rewrite Epre, Hd in Hp. unfold pre_of in Hp.
  destruct (pre_content (scan_from charref soup element (question_text_of charref tag)))
    as [p0|] eqn:Hs; [|discriminate].
  destruct (is_empty p0) eqn:He; [discriminate|]. injection Hp as <-.
  split; [intros ->; discriminate He|].
  unfold scan_from in Hs. apply scan_pre_origin in Hs; [|exact He].
  destruct Hs as [Hs | Hs]; [discriminate Hs | exact Hs].
Qed.

Lemma pre_of_record_witness :
  "for i in range(3):
print(i)"%string <> ""%string /\
  exists cur,
    In cur
      (find_next_siblings Documents.doc_pre
         (Element [0] (Tag "p" [] [Documents.text_tag "b" "3. What does  this print?"]))) /\
    has_name ["pre"] (elt cur) = true /\
    "for i in range(3):
print(i)"%string = pre_text (get_text (elt cur)).
Proof.
  apply (pre_of_record charref_basic Documents.doc_pre 0
           (Element [0] (Tag "p" [] [Documents.text_tag "b" "3. What does  this print?"]))
           (Element [0; 0] (Documents.text_tag "b" "3. What does  this print?"))
           (QuestionData (Some "3. What does this print? (choose one)") None
              (Some "for i in range(3):
print(i)") None
              (Some ["0 1 2"; "0 1 2 & done"]) (Some (VStr "0 1 2 & done")))).
  - repeat split; reflexivity.
  - reflexivity.
  - reflexivity.
Defined.

(** A block that is held and is not empty is not replaced. *)
Lemma scan_keeps_pre charref siblings st p :
  pre_content st = Some p ->
  p <> ""%string ->
  pre_content (scan charref siblings st) = Some p.
Proof.
  intros Hp Hne. revert st Hp.
  induction siblings as [|cur rest IH]; intros st Hp; simpl; [exact Hp|].
  destruct (has_name ["ul"] (elt cur)).
  { destruct (collect_choices charref (find_all ["li"] cur) (choices st) (correct_answers st)).
    exact Hp. }
  destruct (has_name ["p"] (elt cur)).
  { destruct (strong_or_b cur) as [tag|]; [|now apply IH].
    destruct (question_pattern (strip (get_text (elt tag)))); [exact Hp|].
    now apply IH. }
  destruct (has_name ["pre"] (elt cur)); [|now apply IH].
  assert (Hf : falsy (pre_content st) = false).
  { rewrite Hp. simpl. destruct p; [contradiction | reflexivity]. }
  rewrite Hf. now apply IH.
Qed.

Lemma pre_not_ul_p n :
  has_name ["pre"] n = true -> has_name ["ul"] n = false /\ has_name ["p"] n = false.
Proof.
  destruct n as [name attrs contents | s | s]; try discriminate. simpl.
  destruct (String.eqb_spec name "pre") as [->|]; [now split | discriminate].
Qed.

(** X13: the forward scan captures the first [pre] block that has text
    and keeps it: when the scan starts with no block, and the sibling
    tags before a [pre] tag whose lines are not all blank hold no
    stopping element and only [pre] tags without text, the scan ends
    with the lines of that tag, whatever [pre] tags and other siblings
    come after it. *)
Theorem first_pre_is_kept charref before current_element after st :
  falsy (pre_content st) = true ->
  Forall
    (fun x =>
       ends_scan x = false /\
       (has_name ["pre"] (elt x) = true -> pre_text (get_text (elt x)) = ""%string))
    before ->
  has_name ["pre"] (elt current_element) = true ->
  pre_text (get_text (elt current_element)) <> ""%string ->
  pre_content (scan charref (before ++ current_element :: after) st) =
  Some (pre_text (get_text (elt current_element))).
Proof.
  intros Hf Hb Hpre Hne. revert st Hf.
  induction Hb as [|x l [Hx Hxp] Hl IH]; intros st Hf; simpl.
  - destruct (pre_not_ul_p _ Hpre) as [-> ->]. rewrite Hpre, Hf.
    now apply scan_keeps_pre.
  - unfold ends_scan in Hx. apply orb_false_iff in Hx. destruct Hx as [Hul Hp].
    rewrite Hul. destruct (has_name ["p"] (elt x)) eqn:Ep.
    + simpl in Hp. destruct (strong_or_b x) as [tag|]; [|now apply IH].
      rewrite Hp. now apply IH.
    + destruct (has_name ["pre"] (elt x)) eqn:Ex; [|now apply IH].
      rewrite Hf. apply IH. simpl. now rewrite (Hxp eq_refl).
Qed.

Lemma first_pre_is_kept_witness :
  pre_content
    (scan charref_basic
       ([Element [1] (Documents.text_tag "pre" "   ")] ++
        Element [2] (Documents.text_tag "pre" "x = 1") ::
        [Element [3] (Documents.text_tag "pre" "x = 2");
         Element [4] (Tag "ul" [] [Documents.item "1"; Documents.item "2"])])
       (ScanState [] [] ["4. What is the value of x?"] None)) =
    Some "x = 1"%string /\
  extract_quiz_data charref_basic Documents.doc_two_pre =
    [QuestionData (Some "4. What is the value of x?") None (Some "x = 1") None
       (Some ["1"; "2"]) (Some (VStr "Unknown"))].
Proof.
  split; [|reflexivity].
  apply (first_pre_is_kept charref_basic
           [Element [1] (Documents.text_tag "pre" "   ")]
           (Element [2] (Documents.text_tag "pre" "x = 1"))).
  - reflexivity.
  - constructor; [|constructor]. split; [reflexivity|]. intros _. reflexivity.
  - reflexivity.
  - discriminate.
Defined.

(** *** Where the forward scan stops *)

(** X21: the forward scan stops at the first list and at the first
    paragraph whose emphasis tag starts the next question: the sibling
    tags after it have no effect on what the scan finds. *)
Theorem scan_ignores_rest charref before current_element after after' st :
  ends_scan current_element = true ->
  scan charref (before ++ current_element :: after) st =
  scan charref (before ++ current_element :: after') st.
Proof.
  intros He. revert st. induction before as [|x l IH]; intros st; simpl.
  - unfold ends_scan in He. destruct (has_name ["ul"] (elt current_element)); [reflexivity|].
    simpl in He. destruct (has_name ["p"] (elt current_element)); [|discriminate He].
    destruct (strong_or_b current_element) as [tag|]; [|discriminate He].
    simpl in He. now rewrite He.
  - destruct (has_name ["ul"] (elt x)); [reflexivity|].
    destruct (has_name ["p"] (elt x)).
    { destruct (strong_or_b x) as [tag|]; [|apply IH].
      destruct (question_pattern (strip (get_text (elt tag)))); [reflexivity | apply IH]. }
    destruct (has_name ["pre"] (elt x)); apply IH.
Qed.

Lemma scan_ignores_rest_witness :
  scan charref_basic
    ([Element [1] (Documents.text_tag "pre" "x = 1")] ++
     Element [2] (Tag "ul" [] [Documents.item "a"]) ::
     [Element [3] (Documents.text_tag "pre" "y = 2");
      Element [4] (Tag "ul" [] [Documents.item "b"])])
    (ScanState [] [] ["1. Q"] None) =
  scan charref_basic
    ([Element [1] (Documents.text_tag "pre" "x = 1")] ++
     Element [2] (Tag "ul" [] [Documents.item "a"]) :: [])
    (ScanState [] [] ["1. Q"] None).
Proof.
  apply (scan_ignores_rest charref_basic). reflexivity.
Defined.

End Records.

(** ** The lines of a [pre] block *)

Module PreBlock.
Import Text TextFacts Normalization Parser.

Lemma append_char_assoc cur c r :
  ((cur ++ String c "") ++ r)%string = (cur ++ String c r)%string.
Proof. induction cur as [|d cur IH]; [reflexivity|]. simpl. now rewrite IH. Qed.

Lemma append_empty_r s : (s ++ "")%string = s.
Proof. induction s as [|c r IH]; [reflexivity|]. simpl. now rewrite IH. Qed.

Lemma split_lines_one_line s : forall cur,
  no_newline s = true -> split_lines cur s = [(cur ++ s)%string].
Proof.
  induction s as [|c r IH]; intros cur H; simpl.
  - now rewrite append_empty_r.
  - simpl in H. apply andb_true_iff in H. destruct H as [Hc Hr].
    apply negb_true_iff in Hc. rewrite Hc, (IH _ Hr). now rewrite append_char_assoc.
Qed.

Lemma split_lines_first_line l x : forall cur,
  no_newline l = true ->
  split_lines cur (l ++ String "010" x) = (cur ++ l)%string :: split_lines "" x.
Proof.
  induction l as [|c r IH]; intros cur H; simpl.
  - now rewrite append_empty_r.
  - simpl in H. apply andb_true_iff in H. destruct H as [Hc Hr].
    apply negb_true_iff in Hc. rewrite Hc, (IH _ Hr). now rewrite append_char_assoc.
Qed.

Lemma no_newline_app a b :
  no_newline a = true -> no_newline b = true -> no_newline (a ++ b) = true.
Proof.
  induction a as [|c r IH]; [trivial|]. simpl. intros H Hb.
  apply andb_true_iff in H. destruct H as [Hc Hr]. now rewrite Hc, IH.
Qed.

Lemma split_lines_no_newline s : forall cur,
  no_newline cur = true -> Forall (fun l => no_newline l = true) (split_lines cur s).
Proof.
  induction s as [|c r IH]; intros cur H; simpl.
  - now constructor.
  - destruct (Ascii.eqb c "010"%char) eqn:Hc.
    + constructor; [exact H | now apply IH].
    + apply IH. apply no_newline_app; [exact H|]. simpl. now rewrite Hc.
Qed.

Lemma lstrip_no_newline s : no_newline s = true -> no_newline (lstrip s) = true.
Proof.
  induction s as [|c r IH]; [trivial|]. intros H. simpl lstrip.
  destruct (isspace c); [|exact H].
  apply IH. simpl in H. now apply andb_true_iff in H.
Qed.

Lemma rstrip_no_newline s : no_newline s = true -> no_newline (rstrip s) = true.
Proof.
  induction s as [|c r IH]; [trivial|]. simpl. intros H.
  apply andb_true_iff in H. destruct H as [Hc Hr].
  destruct (isspace c && is_empty (rstrip r)); [reflexivity|].
  simpl. now rewrite Hc, IH.
Qed.

Lemma strip_no_newline s : no_newline s = true -> no_newline (strip s) = true.
Proof. intros H. now apply rstrip_no_newline, lstrip_no_newline. Qed.

Lemma strip_idem s : strip (strip s) = strip s.
Proof.
  unfold strip. rewrite (lstrip_of_head (rstrip (lstrip s))).
  - apply rstrip_idem.
  - apply rstrip_keeps_head, lstrip_head.
Qed.

(** The lines [pre_text] keeps. *)
Lemma kept_lines_spec raw :
  Forall (fun l => l <> ""%string /\ strip l = l /\ no_newline l = true)
    (filter (fun line => negb (is_empty line)) (map strip (split_lines "" raw))).
Proof.
  apply Forall_forall. intros l Hl. apply filter_In in Hl. destruct Hl as [Hin Hne].
  apply in_map_iff in Hin. destruct Hin as (x & <- & Hx).
  pose proof (split_lines_no_newline raw "" eq_refl) as Hall.
  rewrite Forall_forall in Hall. repeat split.
  - intros E. rewrite E in Hne. discriminate Hne.
  - apply strip_idem.
  - apply strip_no_newline, Hall, Hx.
Qed.

Lemma split_lines_join lines :
  Forall (fun l => no_newline l = true) lines ->
  lines <> [] ->
  split_lines "" (String.concat (String "010" "") lines) = lines.
Proof.
  induction 1 as [|l rest Hl Hrest IH]; [contradiction|]. intros _.
  destruct rest as [|l2 rest].
  - simpl. now rewrite split_lines_one_line.
  - change (String.concat (String "010" "") (l :: l2 :: rest))
      with (l ++ String "010" (String.concat (String "010" "") (l2 :: rest)))%string.
    rewrite (split_lines_first_line l _ "" Hl). simpl append. f_equal.
    apply IH. discriminate.
Qed.

Lemma map_fixed {A} (f : A -> A) (l : list A) :
  Forall (fun x => f x = x) l -> map f l = l.
Proof. induction 1 as [|x l Hx _ IH]; [reflexivity|]. simpl. now rewrite Hx, IH. Qed.

Lemma filter_all {A} (f : A -> bool) (l : list A) :
  Forall (fun x => f x = true) l -> filter f l = l.
Proof. induction 1 as [|x l Hx _ IH]; [reflexivity|]. simpl. now rewrite Hx, IH. Qed.

(** X14: the text kept for a [pre] block is made of lines that are not
    empty and have no whitespace at their ends, joined by line feeds;
    splitting it gives these lines back, and [pre_text] leaves it as it
    is. *)
Theorem pre_text_lines raw :
  exists lines,
    pre_text raw = String.concat (String "010" "") lines /\
    Forall (fun l => l <> ""%string /\ strip l = l /\ no_newline l = true) lines /\
    (lines <> [] -> split_lines "" (pre_text raw) = lines) /\
    pre_text (pre_text raw) = pre_text raw.
Proof.
  pose proof (kept_lines_spec raw) as H.
  set (lines := filter (fun line => negb (is_empty line)) (map strip (split_lines "" raw))) in *.
  assert (Hn : Forall (fun l => no_newline l = true) lines)
    by (eapply Forall_impl; [|exact H]; now intros l (_ & _ & Hl)).
  exists lines. split; [reflexivity|]. split; [exact H|].
  split; [intros Hne; now apply split_lines_join|].
  change (pre_text raw) with (String.concat (String "010" "") lines).
  destruct lines as [|l rest] eqn:El; [reflexivity|].
  unfold pre_text at 1. rewrite split_lines_join; [|exact Hn|discriminate].
  rewrite map_fixed by (eapply Forall_impl; [|exact H]; now intros x (_ & Hx & _)).
  rewrite filter_all; [reflexivity|].
  eapply Forall_impl; [|exact H]. intros x (Hx & _ & _).
  destruct x; [contradiction | reflexivity].
Qed.

End PreBlock.

(** ** The anchors of a document *)

Module Anchors.
Import Text Soup Parser TextFacts SoupFacts ParserFacts Records.

Lemma emphasis_not_p n : has_name emphasis n = true -> has_name ["p"] n = false.
Proof.
  destruct n as [name attrs contents | s | s]; try discriminate. simpl.
  destruct (String.eqb_spec name "strong") as [->|]; [reflexivity|].
  destruct (String.eqb_spec name "b") as [->|]; [reflexivity | discriminate].
Qed.

(** X15: a standalone anchor is an emphasis tag of the document that is
    its own question tag and passes the check of the ordinal, with the
    question pattern: its stripped text is never a bare ordinal. *)
Theorem standalone_is_question soup tag :
  In tag (standalone_tags soup) ->
  In tag (find_all ["strong"; "b"] (root soup)) /\
  question_tag tag = Some tag /\
  is_question tag = true /\
  question_pattern (strip (get_text (elt tag))) = true /\
  bare_ordinal (strip (get_text (elt tag))) = false.
Proof.
  unfold standalone_tags. intros H. apply filter_In in H. destruct H as [Hin H].
  unfold is_standalone in H. apply andb_true_iff in H. destruct H as [Hq _].
  assert (He : has_name emphasis (elt tag) = true).
  { unfold find_all in Hin. apply filter_In in Hin. exact (proj2 Hin). }
  split; [exact Hin|]. split.
  { unfold question_tag. now rewrite (emphasis_not_p _ He), He. }
  split; [unfold is_question; cbv zeta; now rewrite Hq|]. split; [exact Hq|].
  destruct (bare_ordinal (strip (get_text (elt tag)))) eqn:E; [|reflexivity].
  rewrite (patterns_exclusive _ (strip_fixed _) E) in Hq. discriminate Hq.
Qed.

Lemma standalone_is_question_witness :
  In (Element [0] (Documents.text_tag "b" "1. First?"))
     (find_all ["strong"; "b"] (root Documents.doc_interleaved)) /\
  question_tag (Element [0] (Documents.text_tag "b" "1. First?")) =
    Some (Element [0] (Documents.text_tag "b" "1. First?")) /\
  is_question (Element [0] (Documents.text_tag "b" "1. First?")) = true /\
  question_pattern (strip (get_text (Documents.text_tag "b" "1. First?"))) = true /\
  bare_ordinal (strip (get_text (Documents.text_tag "b" "1. First?"))) = false.
Proof.
  apply (standalone_is_question Documents.doc_interleaved
           (Element [0] (Documents.text_tag "b" "1. First?"))).
  left. reflexivity.
Defined.

(** *** Positions and nodes *)

Lemma placed_list l :
  Forall placed l ->
  forall p i d, In d (descendants_list p i l) ->
    exists k q c,
      nth_error l k = Some c /\ pos d = p ++ (i + k) :: q /\ node_at c q = Some (elt d).
Proof.
  induction 1 as [|c r Hc Hr IH]; intros p i d; simpl; [intros []|].
  intros [<- | Hd].
  - exists 0, [], c. simpl. rewrite Nat.add_0_r. auto.
  - apply in_app_or in Hd. destruct Hd as [Hd | Hd].
    + destruct (Hc _ _ Hd) as (q & Hq & Hn). exists 0, q, c.
      rewrite Nat.add_0_r, Hq, <- app_assoc. auto.
    + destruct (IH _ _ _ Hd) as (k & q & c' & Hk & Hq & Hn). exists (S k), q, c'.
      replace (i + S k) with (S i + k) by lia. auto.
Qed.

Lemma descendants_placed n : placed n.
Proof.
  induction n as [name attrs contents IH | s | s] using node_ind; intros p d;
    [|intros []|intros []].
  rewrite descendants_Tag. intros Hd.
  destruct (placed_list contents IH p 0 d Hd) as (k & q & c & Hk & Hq & Hn).
  exists (k :: q). split; [exact Hq|]. simpl. now rewrite Hk.
Qed.

(** An element of the document is the node at its position. *)
Lemma descendants_node_at soup d :
  In d (descendants [] soup) -> node_at soup (pos d) = Some (elt d).
Proof.
  intros H. destruct (descendants_placed soup [] d H) as (q & Hq & Hn).
  simpl in Hq. now rewrite Hq.
Qed.

Lemma document_order_NoDup l : document_order l -> NoDup (map pos l).
Proof.
  induction 1 as [|x l Hl IH Hx]; simpl; constructor; [|exact IH].
  intros Hin. apply in_map_iff in Hin. destruct Hin as (y & Hy & Hyl).
  rewrite Forall_forall in Hx. specialize (Hx y Hyl). unfold precedes in Hx.
  rewrite Hy, before_irrefl in Hx. discriminate Hx.
Qed.

(** X16: no element is an anchor twice: the positions of the anchors are
    all different. *)
Theorem anchors_are_distinct soup : NoDup (map pos (all_elements soup)).
Proof.
  unfold all_elements. rewrite map_app. apply NoDup_app.
  - apply document_order_NoDup, find_all_document_order.
  - apply document_order_NoDup, StronglySorted_filter, find_all_document_order.
  - intros x Ha Hb. apply in_map_iff in Ha, Hb.
    destruct Ha as (a & <- & Ha). destruct Hb as (b & Hab & Hb).
    unfold all_paragraphs, find_all in Ha. apply filter_In in Ha. destruct Ha as [Ha Hna].
    unfold standalone_tags in Hb. apply filter_In in Hb. destruct Hb as [Hb _].
    unfold find_all in Hb. apply filter_In in Hb. destruct Hb as [Hb Hnb].
    apply descendants_node_at in Ha, Hb. simpl in Ha, Hb.
    rewrite Hab, Ha in Hb. injection Hb as Hb.
    rewrite <- Hb in Hnb. apply emphasis_not_p in Hnb. congruence.
Qed.

(** *** Question tags are emphasis tags of the document *)

Lemma nested_list l :
  Forall nested l ->
  forall p i e t, In e (descendants_list p i l) -> In t (descendants (pos e) (elt e)) ->
    In t (descendants_list p i l).
Proof.
  induction 1 as [|c r Hc Hr IH]; intros p i e t; simpl; [intros []|].
  intros [<- | He] Ht.
  - right. apply in_or_app. now left.
  - right. apply in_or_app. apply in_app_or in He. destruct He as [He | He].
    + left. now apply (Hc _ e t).
    + right. now apply (IH _ _ e t).
Qed.

Lemma descendants_nested n : nested n.
Proof.
  induction n as [name attrs contents IH | s | s] using node_ind; intros p e t;
    [|intros []|intros []].
  rewrite descendants_Tag. now apply nested_list.
Qed.

Lemma find_all_below soup names names' e t :
  In e (find_all names' (root soup)) ->
  In t (find_all names e) ->
  In t (find_all names (root soup)).
Proof.
  unfold find_all. intros He Ht. apply filter_In in He, Ht.
  destruct He as [He _]. destruct Ht as [Ht Hn]. apply filter_In. split; [|exact Hn].
  now apply (descendants_nested soup [] e t).
Qed.

Lemma find_In names e t : find names e = Some t -> In t (find_all names e).
Proof.
  unfold find. destruct (find_all names e) as [|x l]; [discriminate|].
  intros [= <-]. now left.
Qed.

Lemma find_all_more names names' e t :
  (forall n, has_name names n = true -> has_name names' n = true) ->
  In t (find_all names e) -> In t (find_all names' e).
Proof.
  unfold find_all. intros Hsub Ht. apply filter_In in Ht. destruct Ht as [Ht Hn].
  apply filter_In. split; [exact Ht | now apply Hsub].
Qed.

Lemma strong_is_emphasis n : has_name ["strong"] n = true -> has_name emphasis n = true.
Proof.
  destruct n as [name attrs contents | s | s]; try discriminate. simpl.
  destruct (String.eqb name "strong"); [reflexivity | discriminate].
Qed.

Lemma b_is_emphasis n : has_name ["b"] n = true -> has_name emphasis n = true.
Proof.
  destruct n as [name attrs contents | s | s]; try discriminate. simpl.
  destruct (String.eqb name "b"); [now rewrite orb_true_r | discriminate].
Qed.

(** The question tag of an anchor is an emphasis tag of the document. *)
Lemma question_tag_in_document soup i element tag :
  anchor soup i element tag -> In tag (find_all emphasis (root soup)).
Proof.
  intros (Hn & Ht & _). apply nth_error_In in Hn. unfold all_elements in Hn.
  apply in_app_or in Hn. unfold question_tag in Ht. destruct Hn as [Hp | Hs].
  - assert (Hname : has_name ["p"] (elt element) = true).
    { unfold all_paragraphs, find_all in Hp. apply filter_In in Hp. exact (proj2 Hp). }
    rewrite Hname in Ht. unfold strong_or_b in Ht.
    destruct (find ["strong"] element) as [t|] eqn:Es.
    + injection Ht as <-. apply find_In in Es.
      apply (find_all_below soup emphasis ["p"] element t Hp).
      now apply (find_all_more ["strong"] emphasis element t strong_is_emphasis).
    + apply find_In in Ht.
      apply (find_all_below soup emphasis ["p"] element tag Hp).
      now apply (find_all_more ["b"] emphasis element tag b_is_emphasis).
  - unfold standalone_tags in Hs. apply filter_In in Hs. destruct Hs as [Hs _].
    assert (He : has_name emphasis (elt element) = true).
    { unfold find_all in Hs. apply filter_In in Hs. exact (proj2 Hs). }
    rewrite (emphasis_not_p _ He), He in Ht. now injection Ht as <-.
Qed.

(** X17: a document in which no [strong] or [b] tag has a text that
    starts with an ordinal (digits and a dot, then whitespace or the
    end) yields no record at all, whatever else it holds. *)
Theorem no_question_tag_no_record charref soup :
  (forall t, In t (find_all ["strong"; "b"] (root soup)) -> is_question t = false) ->
  extract_quiz_data charref soup = [].
Proof.
  intros H. destruct (extract_quiz_data charref soup) as [|d l] eqn:E; [reflexivity|].
  assert (Hin : In d (extract_quiz_data charref soup)) by (rewrite E; now left).
  apply extract_In in Hin. destruct Hin as [i Hi].
  destruct (process_has_anchor charref soup i d Hi) as (element & tag & Ha).
  pose proof (question_tag_in_document soup i element tag Ha) as Ht.
  apply H in Ht. destruct Ha as (_ & _ & Hq). congruence.
Qed.

Lemma no_question_tag_no_record_witness :
  extract_quiz_data charref_basic Documents.doc_note = [].
Proof.
  apply (no_question_tag_no_record charref_basic Documents.doc_note).
  intros t Ht. simpl in Ht. destruct Ht as [<- | []]. reflexivity.
Defined.

(** *** Documents without comments: the malformed case never applies *)

Lemma node_eqb_Tag n1 a1 c1 n2 a2 c2 :
  node_eqb (Tag n1 a1 c1) (Tag n2 a2 c2) =
  String.eqb n1 n2 && attrs_eqb a1 a2 && nodes_eqb c1 c2.
Proof.
  reflexivity.
Qed.

Lemma get_text_Tag name attrs contents : get_text (Tag name attrs contents) = texts contents.
Proof.
  simpl. induction contents as [|c r IH]; [reflexivity|]. simpl. now rewrite IH.
Qed.

Lemma comment_free_Tag name attrs contents :
  comment_free (Tag name attrs contents) = forallb comment_free contents.
Proof.
  simpl. induction contents as [|c r IH]; [reflexivity|]. simpl. now rewrite IH.
Qed.

(** Two equal nodes without comments have the same text. *)
Lemma node_eqb_text a : forall b,
  comment_free a = true -> comment_free b = true ->
  node_eqb a b = true -> get_text a = get_text b.
Proof.
  induction a as [n1 a1 c1 IH | s | s] using node_ind; intros [n2 a2 c2 | t | t];
    try discriminate.
  - rewrite node_eqb_Tag, !get_text_Tag, !comment_free_Tag.
    intros Ha Hb He. apply andb_true_iff in He. destruct He as [_ He].
    revert c2 Hb He. induction IH as [|x l Hx Hl IHl]; intros [|y m] Hb He;
      try discriminate; [reflexivity|].
    simpl in *. apply andb_true_iff in Ha, Hb, He.
    destruct Ha as [Hax Hal]. destruct Hb as [Hby Hbm]. destruct He as [Hxy Hlm].
    now rewrite (Hx y Hax Hby Hxy), (IHl Hal m Hbm Hlm).
  - simpl. intros _ _ H. now apply String.eqb_eq in H as ->.
Qed.

Lemma comment_free_list l :
  Forall (fun n => forall p d, In d (descendants p n) -> comment_free n = true ->
                               comment_free (elt d) = true) l ->
  forall p i d, In d (descendants_list p i l) -> forallb comment_free l = true ->
    comment_free (elt d) = true.
Proof.
  induction 1 as [|c r Hc Hr IH]; intros p i d; simpl; [intros []|].
  intros Hd Hall. apply andb_true_iff in Hall. destruct Hall as [Hcf Hrf].
  destruct Hd as [<- | Hd]; [exact Hcf|].
  apply in_app_or in Hd. destruct Hd as [Hd | Hd]; [now apply (Hc _ _ Hd) | now apply (IH _ _ _ Hd)].
Qed.

Lemma comment_free_descendants n : forall p d,
  In d (descendants p n) -> comment_free n = true -> comment_free (elt d) = true.
Proof.
  induction n as [name attrs contents IH | s | s] using node_ind; intros p d;
    [|intros []|intros []].
  rewrite descendants_Tag, comment_free_Tag. now apply comment_free_list.
Qed.

Lemma comment_free_child n i c :
  comment_free n = true -> nth_error (contents_of n) i = Some c -> comment_free c = true.
Proof.
  destruct n as [name attrs contents | s | s]; simpl contents_of;
    [|destruct i; discriminate|destruct i; discriminate].
  rewrite comment_free_Tag. intros H Hn. apply nth_error_In in Hn.
  rewrite forallb_forall in H. now apply H.
Qed.

Lemma comment_free_ancestors p : forall acc here n a,
  comment_free n = true ->
  Forall (fun x => comment_free (elt x) = true) acc ->
  In a (ancestors acc here n p) -> comment_free (elt a) = true.
Proof.
  induction p as [|i q IH]; intros acc here n a Hn Hacc; simpl.
  - rewrite Forall_forall in Hacc. apply Hacc.
  - destruct (nth_error (contents_of n) i) as [c|] eqn:Ec.
    + apply IH; [eapply comment_free_child; eassumption|]. now constructor.
    + rewrite Forall_forall in Hacc. apply Hacc.
Qed.

Lemma malformed_number_sibling tag siblings :
  malformed_number tag siblings = true ->
  exists sibling,
    In sibling siblings /\
    bare_ordinal (strip (get_text (elt sibling))) = true /\
    node_eqb (elt tag) (elt sibling) = true.
Proof.
  induction siblings as [|s rest IH]; simpl; [discriminate|].
  destruct (bare_ordinal (strip (get_text (elt s))) &&
            negb match rest with [] => true | _ :: _ => false end &&
            node_eqb (elt tag) (elt s)) eqn:E.
  - intros _. apply andb_true_iff in E. destruct E as [E He].
    apply andb_true_iff in E. destruct E as [Hb _]. exists s. auto.
  - intros H. destruct (IH H) as (x & Hin & Hx). exists x. auto.
Qed.

(** X18: in a document without comments the malformed case never makes
    an anchor: the standalone anchors are exactly the [strong] and [b]
    tags that have no paragraph above them and whose stripped text
    matches the question pattern. *)
Theorem standalone_without_comments soup tag :
  comment_free soup = true ->
  (In tag (standalone_tags soup) <->
   In tag (find_all ["strong"; "b"] (root soup)) /\
   question_pattern (strip (get_text (elt tag))) = true /\
   find_parent soup "p" tag = None).
Proof.
  intros Hcf. unfold standalone_tags. rewrite filter_In. unfold is_standalone.
  split.
  - intros [Hin H]. apply andb_true_iff in H. destruct H as [Hq H].
    split; [exact Hin|]. split; [exact Hq|].
    destruct (find_parent soup "p" tag) as [parent|] eqn:Ep; [|reflexivity].
    apply andb_true_iff in H. destruct H as [_ H].
    apply malformed_number_sibling in H. destruct H as (s & Hs & Hb & He).
    assert (Htag : comment_free (elt tag) = true).
    { unfold find_all in Hin. apply filter_In in Hin.
      exact (comment_free_descendants soup [] tag (proj1 Hin) Hcf). }
    assert (Hpar : comment_free (elt parent) = true).
    { unfold find_parent in Ep. apply find_some in Ep.
      apply (comment_free_ancestors (pos tag) [] [] soup parent Hcf (Forall_nil _) (proj1 Ep)). }
    assert (Hsib : comment_free (elt s) = true).
    { unfold find_all in Hs. apply filter_In in Hs.
      exact (comment_free_descendants (elt parent) (pos parent) s (proj1 Hs) Hpar). }
    rewrite (node_eqb_text _ _ Htag Hsib He) in Hq.
    rewrite (patterns_exclusive _ (strip_fixed _) Hb) in Hq. discriminate Hq.
  - intros (Hin & Hq & Hp). split; [exact Hin|]. now rewrite Hq, Hp.
Qed.

Lemma standalone_without_comments_witness :
  In (Element [0] (Documents.text_tag "b" "1. First?"))
     (standalone_tags Documents.doc_interleaved) <->
  In (Element [0] (Documents.text_tag "b" "1. First?"))
     (find_all ["strong"; "b"] (root Documents.doc_interleaved)) /\
  question_pattern (strip (get_text (Documents.text_tag "b" "1. First?"))) = true /\
  find_parent Documents.doc_interleaved "p"
    (Element [0] (Documents.text_tag "b" "1. First?")) = None.
Proof.
  apply (standalone_without_comments Documents.doc_interleaved
           (Element [0] (Documents.text_tag "b" "1. First?"))).
  reflexivity.
Defined.

End Anchors.
